(** * Belt-wearable ECG pipeline: frame reader, windower, filter cascade and
    inference stage (deploy_acquisition.py, deploy_segmentation.py,
    deploy_filtering.py, deploy_inference.py), shallowly embedded. *)

From Stdlib Require Import Floats.
From stdpp Require Import base list gmap strings.
From Stdlib Require Import ZArith Lia.

Local Open Scope list_scope.

(* ------------------------------------------------------------------ *)
(** ** deploy_acquisition.py *)
(* ------------------------------------------------------------------ *)
Module Acquisition.

Definition BUFFER_SIZE : nat := 256.
(** [MARKER = b"MARKER"] *)
Definition MARKER : list Byte.byte :=
  [Byte.x4d; Byte.x41; Byte.x52; Byte.x4b; Byte.x45; Byte.x52].
Definition PACKET_DATA_SIZE : nat := BUFFER_SIZE * 6.
Definition PACKET_SIZE : nat := length MARKER + PACKET_DATA_SIZE.

Fixpoint bytes_eqb (a b : list Byte.byte) : bool :=
  match a, b with
  | [], [] => true
  | x :: a', y :: b' => Byte.eqb x y && bytes_eqb a' b'
  | _, _ => false
  end.

(** The serial port is the ordered stream of bytes still to arrive; a read
    ends early when the stream is exhausted ([ser.read(n)] returning fewer
    than [n] bytes after its timeout). *)
Definition stream := list Byte.byte.

Definition ser_read (n : nat) (s : stream) : list Byte.byte * stream :=
  (take n s, drop n s).

(** Messages put on [status_queue] by the reader. *)
Inductive warn :=
| SyncLostGot (got : list Byte.byte)      (* 'Sync lost - got ... instead of MARKER' *)
| SyncLostIncomplete (n : nat)            (* 'Sync lost - incomplete marker (n bytes)' *)
| IncompletePacket (n : nat).             (* 'Incomplete packet: n/1536 bytes' *)

(** [buffer[-len(MARKER):]] *)
Definition last_marker_len (buf : list Byte.byte) : list Byte.byte :=
  drop (length buf - length MARKER) buf.

(** The second [while True] loop of [_find_marker]: structural on the
    remaining stream, since each turn reads one byte. *)
Fixpoint find_marker_loop (buf : list Byte.byte) (s : stream) : bool * stream :=
  if bytes_eqb (last_marker_len buf) MARKER then (true, s)
  else match s with
       | [] => (false, [])
       | b :: s' =>
           let buf' := buf ++ [b] in
           if Nat.ltb 1000 (length buf') then (false, s')
           else find_marker_loop buf' s'
       end.

(** The first loop of [_find_marker]: read single bytes until the buffer
    holds [len(MARKER)] of them ([n] is how many are still missing). *)
Fixpoint find_marker_fill (n : nat) (buf : list Byte.byte) (s : stream)
  : bool * stream :=
  match n with
  | O => find_marker_loop buf s
  | S n' =>
      match s with
      | [] => (false, [])
      | b :: s' => find_marker_fill n' (buf ++ [b]) s'
      end
  end.

(** [_find_marker]: starts from an empty [bytearray()]. *)
Definition find_marker (s : stream) : bool * stream :=
  find_marker_fill (length MARKER) [] s.

(** Result of one call of [_read_packet]: the returned packet ([None] for
    Python's [None]), the warnings it reported, the stream left over, and
    the number of nested [_read_packet] frames the call used (1 for a call
    that does not re-invoke itself). *)
Record read_result := mk_read_result {
  rr_packet : option (list Byte.byte);
  rr_warnings : list warn;
  rr_rest : stream;
  rr_depth : nat
}.

(** [_read_packet], with [fuel] bounding the self-call
    [return self._read_packet()]; [read_packet] below gives it more fuel
    than the stream has bytes, and every self-call consumes bytes. *)
Fixpoint read_packet_fuel (fuel : nat) (s : stream) : read_result :=
  let '(marker, s1) := ser_read (length MARKER) s in
  if negb (bytes_eqb marker MARKER) then
    let w := if Nat.eqb (length marker) (length MARKER)
             then SyncLostGot marker
             else SyncLostIncomplete (length marker) in
    let '(found, s2) := find_marker s1 in
    if found then
      match fuel with
      | O => mk_read_result None [w] s2 1
      | S fuel' =>
          let r := read_packet_fuel fuel' s2 in
          mk_read_result (rr_packet r) (w :: rr_warnings r) (rr_rest r)
                         (S (rr_depth r))
      end
    else mk_read_result None [w] s2 1
  else
    let '(data, s2) := ser_read PACKET_DATA_SIZE s1 in
    if negb (Nat.eqb (length data) PACKET_DATA_SIZE) then
      mk_read_result None [IncompletePacket (length data)] s2 1
    else mk_read_result (Some data) [] s2 1.

Definition read_packet (s : stream) : read_result :=
  read_packet_fuel (S (length s)) s.

(** [_read_packet] on CPython's call stack, whose depth
    [sys.getrecursionlimit()] bounds: [room] is how many nested
    [_read_packet] frames still fit below the limit, once the frames under
    [acquisition_loop] and those of the callees ([ser.read],
    [_find_marker]) are set aside.  A call with no room left raises
    [RecursionError], here [None]; nothing in [_read_packet],
    [acquisition_loop] or [run] catches it. *)
Fixpoint read_packet_limited (room : nat) (s : stream) : option read_result :=
  match room with
  | O => None
  | S room' =>
      let '(marker, s1) := ser_read (length MARKER) s in
      if negb (bytes_eqb marker MARKER) then
        let w := if Nat.eqb (length marker) (length MARKER)
                 then SyncLostGot marker
                 else SyncLostIncomplete (length marker) in
        let '(found, s2) := find_marker s1 in
        if found then
          r ← read_packet_limited room' s2;
          Some (mk_read_result (rr_packet r) (w :: rr_warnings r) (rr_rest r)
                               (S (rr_depth r)))
        else Some (mk_read_result None [w] s2 1)
      else
        let '(data, s2) := ser_read PACKET_DATA_SIZE s1 in
        if negb (Nat.eqb (length data) PACKET_DATA_SIZE) then
          Some (mk_read_result None [IncompletePacket (length data)] s2 1)
        else Some (mk_read_result (Some data) [] s2 1)
  end.

End Acquisition.

(* ------------------------------------------------------------------ *)
(** ** deploy_segmentation.py *)
(* ------------------------------------------------------------------ *)
Module Segmentation.

Definition BUFFER_SIZE : nat := 256.
Definition SEGMENT_SIZE : nat := 1024.
Definition OVERLAP_SIZE : nat := 256.
Definition EXTENDED_SEGMENT_SIZE : nat := SEGMENT_SIZE + 2 * OVERLAP_SIZE.

(** A sample [(timestamp_ms, adc_value)]. *)
Definition sample : Type := (Z * Z)%type.

(** Python's slice [l[a:b]] for [0 <= a <= b]. *)
Definition py_slice {A} (l : list A) (a b : nat) : list A := take (b - a) (drop a l).

Definition byte_Z (b : Byte.byte) : Z := Z.of_N (Byte.to_N b).

(** [struct.unpack('<IH', six_bytes)]: a little-endian u32, then a u16. *)
Definition unpack_IH (b0 b1 b2 b3 b4 b5 : Byte.byte) : sample :=
  (byte_Z b0 + 256 * byte_Z b1 + 65536 * byte_Z b2 + 16777216 * byte_Z b3,
   byte_Z b4 + 256 * byte_Z b5)%Z.

(** [_unpack_packet]; a trailing piece shorter than six bytes makes
    [struct.unpack] raise [struct.error] ([None]). *)
Fixpoint unpack_packet (packet_data : list Byte.byte) : option (list sample) :=
  match packet_data with
  | [] => Some []
  | b0 :: b1 :: b2 :: b3 :: b4 :: b5 :: rest =>
      match unpack_packet rest with
      | Some samples => Some (unpack_IH b0 b1 b2 b3 b4 b5 :: samples)
      | None => None
      end
  | _ => None
  end.

(** The segment dictionary built by [_create_segment]. *)
Record segment := mk_segment {
  segment_id : nat;
  extended_timestamp_ms : list Z;
  extended_adc_value : list Z;
  timestamp_ms : list Z;
  core_start_idx : nat;
  core_end_idx : nat;
  start_time : Z;
  end_time : Z;
  sample_count : nat
}.

(** The fields of [SegmentationProcess] that the loop mutates. *)
Record seg_state := mk_seg_state {
  segment_buffer : list sample;
  overlap_buffer : list sample;
  segment_count : nat
}.

Definition init_seg_state : seg_state := mk_seg_state [] [] 0.

(** The dictionary part of [_create_segment], from the counter, the
    overlap buffer and [segment_buffer[:SEGMENT_SIZE + OVERLAP_SIZE]].
    [core_timestamps[0]] and [core_timestamps[-1]] raise [IndexError] on an
    empty core ([None]). *)
Definition build_segment (count : nat) (overlap : list sample)
    (window : list sample) : option segment :=
  let extended_samples := overlap ++ window in
  let extended_timestamps := map fst extended_samples in
  let extended_adc := map snd extended_samples in
  let core_start := length overlap in
  let core_end := core_start + SEGMENT_SIZE in
  let core_timestamps := py_slice extended_timestamps core_start core_end in
  match head core_timestamps, last core_timestamps with
  | Some st, Some et =>
      Some (mk_segment count extended_timestamps extended_adc core_timestamps
              core_start core_end st et SEGMENT_SIZE)
  | _, _ => None
  end.

(** [_create_segment]: the segment, then the counter and the buffers
    advanced ([None] when it raises, before any field is assigned). *)
Definition create_segment (st : seg_state) : option (segment * seg_state) :=
  let buf := segment_buffer st in
  match build_segment (segment_count st) (overlap_buffer st)
          (take (SEGMENT_SIZE + OVERLAP_SIZE) buf) with
  | Some seg =>
      Some (seg, mk_seg_state (drop SEGMENT_SIZE buf)
                   (py_slice buf SEGMENT_SIZE (SEGMENT_SIZE + OVERLAP_SIZE))
                   (S (segment_count st)))
  | None => None
  end.

(** One turn of [segmentation_loop] that dequeued [packet_data]: the new
    state and the segments put on [segment_queue] (at most one).  An
    exception is caught by the loop, reported, and leaves the fields as they
    were when it was raised.  The DEBUG/ERROR status messages are not
    modelled. *)
Definition on_packet (st : seg_state) (packet_data : list Byte.byte)
  : seg_state * list segment :=
  match unpack_packet packet_data with
  | None => (st, [])
  | Some samples =>
      let st1 := mk_seg_state (segment_buffer st ++ samples)
                   (overlap_buffer st) (segment_count st) in
      if Nat.leb (SEGMENT_SIZE + OVERLAP_SIZE) (length (segment_buffer st1)) then
        match create_segment st1 with
        | Some (seg, st2) => (st2, [seg])
        | None => (st1, [])
        end
      else (st1, [])
  end.

(** The loop over a sequence of dequeued packets: final state and every
    segment emitted, in emission order. *)
Definition run_packets (st : seg_state) (packets : list (list Byte.byte))
  : seg_state * list segment :=
  fold_left (fun acc p => let '(s, out) := acc in
                          let '(s', new) := on_packet s p in (s', out ++ new))
            packets (st, []).

End Segmentation.

(* ------------------------------------------------------------------ *)
(** ** deploy_filtering.py *)
(* ------------------------------------------------------------------ *)
Module Filtering.
Import Segmentation.

(** The [scipy.signal] calls of the cascade, and [int(np.ceil(.))]: library
    code, taken as a parameter.  A call that raises returns [None].
    [ellip_high] is [ellip(..., btype='high')]. *)
Record scipy_signal := mk_scipy_signal {
  iirnotch : float -> float -> float -> option (list float * list float);
  remez : Z -> list float -> list float -> float -> list float -> option (list float);
  ellipord : float -> float -> float -> float -> option (Z * float);
  ellip_high : Z -> float -> float -> float -> option (list float * list float);
  filtfilt : list float -> list float -> list float -> option (list float);
  np_ceil_int : float -> Z
}.

Local Open Scope float_scope.

Definition FIR_PASSBAND_HZ : float := 150.
Definition FIR_STOPBAND_HZ : float := 180.
Definition FIR_STOPBAND_ATTEN_DB : float := 40.
Definition HPF_PASSBAND_HZ : float := 1.
(** [0.05] *)
Definition HPF_STOPBAND_HZ : float := 0x1.999999999999ap-5.
Definition HPF_PASSBAND_RIPPLE_DB : float := 0.5.
Definition HPF_STOPBAND_ATTEN_DB : float := 40.
Definition NOTCH_FREQ_HZ : float := 61.
Definition NOTCH_Q : float := 10.
Definition SAMPLE_RATE_HZ : float := 360.
(** [np.pi] *)
Definition np_pi : float := 0x1.921fb54442d18p+1.
(** The [1e-8] of [normalize_segment]. *)
Definition EPS : float := 0x1.5798ee2308c3ap-27.

(** [apply_fir_lowpass]; [7.95] and [2.285] are written as their binary64
    values. *)
Definition apply_fir_lowpass (lib : scipy_signal) (signal_data : list float)
  : option (list float) :=
  let nyquist := SAMPLE_RATE_HZ / 2 in
  let bands := [0; FIR_PASSBAND_HZ; FIR_STOPBAND_HZ; nyquist] in
  let desired := [1; 0] in
  let passband_weight := 1 in
  (* [10 ** (FIR_STOPBAND_ATTEN_DB / 20)] = [10 ** 2.0] = [100.0] *)
  let stopband_weight := 100 in
  let width := (FIR_STOPBAND_HZ - FIR_PASSBAND_HZ) / nyquist in
  let numtaps0 :=
    (np_ceil_int lib ((FIR_STOPBAND_ATTEN_DB - 0x1.fcccccccccccdp+2)
                      / (0x1.247ae147ae148p+1 * width * np_pi)) + 1)%Z in
  let numtaps := if Z.even numtaps0 then (numtaps0 + 1)%Z else numtaps0 in
  b ← remez lib numtaps bands desired SAMPLE_RATE_HZ [passband_weight; stopband_weight];
  filtfilt lib b [1] signal_data.

Definition apply_iir_highpass (lib : scipy_signal) (signal_data : list float)
  : option (list float) :=
  let nyquist := SAMPLE_RATE_HZ / 2 in
  let wp := HPF_PASSBAND_HZ / nyquist in
  let ws := HPF_STOPBAND_HZ / nyquist in
  '(N, Wn) ← ellipord lib wp ws HPF_PASSBAND_RIPPLE_DB HPF_STOPBAND_ATTEN_DB;
  '(b, a) ← ellip_high lib N HPF_PASSBAND_RIPPLE_DB HPF_STOPBAND_ATTEN_DB Wn;
  filtfilt lib b a signal_data.

Definition apply_notch_filter (lib : scipy_signal) (signal_data : list float)
  : option (list float) :=
  '(b, a) ← iirnotch lib NOTCH_FREQ_HZ NOTCH_Q SAMPLE_RATE_HZ;
  filtfilt lib b a signal_data.

(** [np.minimum] and [np.maximum]: a NaN operand propagates. *)
Definition np_minimum (a b : float) : float :=
  if PrimFloat.is_nan a then a else if PrimFloat.is_nan b then b
  else if PrimFloat.ltb b a then b else a.

Definition np_maximum (a b : float) : float :=
  if PrimFloat.is_nan a then a else if PrimFloat.is_nan b then b
  else if PrimFloat.ltb a b then b else a.

(** [np.min] and [np.max]: they raise [ValueError] on an empty array. *)
Definition np_min (xs : list float) : option float :=
  match xs with [] => None | x :: r => Some (fold_left np_minimum r x) end.

Definition np_max (xs : list float) : option float :=
  match xs with [] => None | x :: r => Some (fold_left np_maximum r x) end.

Definition normalize_segment (signal_data : list float) : option (list float) :=
  min_val ← np_min signal_data;
  max_val ← np_max signal_data;
  Some (map (fun x => (x - min_val) / (max_val - min_val + EPS)) signal_data).

(** [astype(np.float32)] of a [uint16] value (exact). *)
Definition astype_float32 (v : Z) : float := PrimFloat.of_uint63 (Uint63.of_Z v).

Definition apply_filtering_pipeline (lib : scipy_signal) (signal : list Z)
  : option (list float) :=
  let signal_float := map astype_float32 signal in
  filtered ← apply_notch_filter lib signal_float;
  filtered ← apply_fir_lowpass lib filtered;
  apply_iir_highpass lib filtered.

(** The dictionary built by [process_segment] ([p_] marks the keys it
    copies from the segment). *)
Record processed := mk_processed {
  p_segment_id : nat;
  p_timestamp_ms : list Z;
  p_start_time : Z;
  p_end_time : Z;
  raw_signal : list Z;
  filtered_signal : list float;
  processed_signal : list float;
  p_sample_count : nat
}.

Definition process_segment (lib : scipy_signal) (seg : segment) : option processed :=
  filtered_extended ← apply_filtering_pipeline lib (extended_adc_value seg);
  let filtered_core := py_slice filtered_extended (core_start_idx seg) (core_end_idx seg) in
  let raw_core := py_slice (extended_adc_value seg) (core_start_idx seg) (core_end_idx seg) in
  normalized_signal ← normalize_segment filtered_core;
  Some (mk_processed (segment_id seg) (timestamp_ms seg) (start_time seg) (end_time seg)
          raw_core filtered_core normalized_signal (sample_count seg)).

(** The messages [filtering_loop] puts on [status_queue]. *)
Inductive filt_status :=
  | FiltDebug (processed_count : nat)
  | FiltError.

(** The queue ends and the counter [filtering_loop] touches. *)
Record filt_state := mk_filt_state {
  inference_queue : list processed;
  status_queue : list filt_status;
  processed_count : nat
}.

(** One turn of [filtering_loop] that dequeued [segment]: [None] from
    [process_segment] is the [Exception] branch. *)
Definition filtering_step (lib : scipy_signal) (st : filt_state) (segment : segment)
  : filt_state :=
  match process_segment lib segment with
  | Some processed =>
      let n := S (processed_count st) in
      mk_filt_state (inference_queue st ++ [processed])
        (if Nat.eqb (n mod 10) 0 then status_queue st ++ [FiltDebug n] else status_queue st)
        n
  | None => mk_filt_state (inference_queue st) (status_queue st ++ [FiltError])
              (processed_count st)
  end.

Definition filtering_loop (lib : scipy_signal) (segments : list segment) : filt_state :=
  fold_left (filtering_step lib) segments (mk_filt_state [] [] 0).

End Filtering.

(* ------------------------------------------------------------------ *)
(** ** deploy_inference.py *)
(* ------------------------------------------------------------------ *)
Module Inference.
Import Filtering.

Record prediction := mk_prediction {
  pred_class : nat;
  pred_label : string;
  pred_confidence : float
}.

Definition RHYTHM_CLASSES : gmap nat string :=
  {[0 := "NSR"; 1 := "AFIB"; 2 := "PVC"; 3 := "LBBB"]}.

(** A loaded TFLite interpreter: [set_tensor], [invoke] and
    [get_tensor(...)[0]] on a float32 input, [None] when one of them
    raises. *)
Record interpreter := mk_interpreter {
  invoke : list float -> option (list float)
}.

(** [processed_signal.reshape(1, 1024, 1)] raises unless there are exactly
    1024 values. *)
Definition reshape_1_1024_1 (xs : list float) : option (list float) :=
  if Nat.eqb (length xs) 1024 then Some xs else None.

(** [np.argmax]: the index of the first maximum, or of the first NaN. *)
Fixpoint argmax_from (i best : nat) (bv : float) (xs : list float) : nat :=
  match xs with
  | [] => best
  | x :: r =>
      if PrimFloat.is_nan bv then best
      else if PrimFloat.is_nan x || PrimFloat.ltb bv x then argmax_from (S i) i x r
      else argmax_from (S i) best bv r
  end.

Definition np_argmax (xs : list float) : option nat :=
  match xs with [] => None | x :: r => Some (argmax_from 1 0 x r) end.

Definition default_prediction : prediction := mk_prediction 0 "NSR" 0%float.

(** The model call inside [run_inference]'s [try]: reshape, then invoke. *)
Definition invoke_model (it : interpreter) (processed_signal : list float)
  : option (list float) :=
  input_data ← reshape_1_1024_1 processed_signal;
  invoke it input_data.

(** [run_inference]; the [except] branch returns the default (its
    [('ERROR', ...)] report is not modelled). *)
Definition run_inference (interpreter : option interpreter) (processed_signal : list float)
  : prediction :=
  match interpreter with
  | None => default_prediction
  | Some it =>
      let attempt :=
        output_data ← invoke_model it processed_signal;
        predicted_class ← np_argmax output_data;
        confidence ← np_max output_data;
        label ← RHYTHM_CLASSES !! predicted_class;
        Some (mk_prediction predicted_class label confidence) in
      default default_prediction attempt
  end.

(** A CSV row. *)
Inductive row :=
  | HeaderRow (cols : list string)
  | SignalRow (timestamp_ms : Z) (adc_value : Z)
  | FilteredRow (timestamp_ms : Z) (filtered_value : float)
  | RhythmRow (segment_id : nat) (start_time end_time : Z) (rhythm_class : nat)
              (rhythm_label : string) (confidence : float).

Definition signal_header : list string := ["timestamp_ms"; "adc_value"].
Definition rhythm_header : list string :=
  ["segment_id"; "start_time_ms"; "end_time_ms"; "rhythm_class"; "rhythm_label"; "confidence"].

(** File names under [output_dir]. *)
Definition signal_path (session_name : string) : string :=
  String.append session_name "_signal.csv".
Definition filtered_path (session_name : string) : string :=
  String.append session_name "_filtered.csv".
Definition annotation_path (session_name : string) : string :=
  String.append session_name "_rhythm.csv".

(** The files of [output_dir] (path to rows) and the fields of
    [InferenceProcess] the loop touches; a writer is the path of its open
    file, [None] once closed.  [session_active] is the local of
    [inference_loop]. *)
Record inf_state := mk_inf_state {
  files : gmap string (list row);
  signal_writer : option string;
  filtered_writer : option string;
  annotation_writer : option string;
  current_session : option string;
  inference_count : nat;
  samples_written : nat;
  session_active : bool
}.

(** [open(path, 'w')] truncates. *)
Definition open_w (path : string) (fs : gmap string (list row)) : gmap string (list row) :=
  <[path := []]> fs.

(** [writer.writerow] for each row, appended to the file. *)
Definition writerows (path : string) (rs : list row) (fs : gmap string (list row))
  : gmap string (list row) :=
  <[path := default [] (fs !! path) ++ rs]> fs.

Definition start_session (session_name : string) (st : inf_state) : inf_state :=
  let sp := signal_path session_name in
  let fp := filtered_path session_name in
  let ap := annotation_path session_name in
  let fs := writerows sp [HeaderRow signal_header] (open_w sp (files st)) in
  let fs := writerows fp [HeaderRow signal_header] (open_w fp fs) in
  let fs := writerows ap [HeaderRow rhythm_header] (open_w ap fs) in
  mk_inf_state fs (Some sp) (Some fp) (Some ap) (Some session_name)
    (inference_count st) (samples_written st) (session_active st).

Definition stop_session (st : inf_state) : inf_state :=
  mk_inf_state (files st) None None None None 0 0 (session_active st).

Definition write_signal_samples (segment : processed) (st : inf_state) : inf_state :=
  match signal_writer st with
  | None => st
  | Some sp =>
      let timestamps := p_timestamp_ms segment in
      let fs := writerows sp (zip_with SignalRow timestamps (raw_signal segment)) (files st) in
      let fs := match filtered_writer st with
                | Some fp => writerows fp (zip_with FilteredRow timestamps (filtered_signal segment)) fs
                | None => fs
                end in
      mk_inf_state fs (signal_writer st) (filtered_writer st) (annotation_writer st)
        (current_session st) (inference_count st)
        (samples_written st + length timestamps) (session_active st)
  end.

Definition rhythm_row (segment : processed) (prediction : prediction) : row :=
  RhythmRow (p_segment_id segment) (p_start_time segment) (p_end_time segment)
    (pred_class prediction) (pred_label prediction) (pred_confidence prediction).

(** [write_rhythm_annotation]; the buzzer and the status messages are not
    modelled. *)
Definition write_rhythm_annotation (segment : processed) (prediction : prediction)
    (st : inf_state) : inf_state :=
  match annotation_writer st with
  | None => st
  | Some ap =>
      mk_inf_state (writerows ap [rhythm_row segment prediction] (files st))
        (signal_writer st) (filtered_writer st) (annotation_writer st)
        (current_session st) (inference_count st) (samples_written st) (session_active st)
  end.

Definition process_segment (interpreter : option interpreter) (segment : processed)
    (st : inf_state) : inf_state :=
  let prediction := run_inference interpreter (processed_signal segment) in
  let st := write_signal_samples segment st in
  let st := write_rhythm_annotation segment prediction st in
  mk_inf_state (files st) (signal_writer st) (filtered_writer st) (annotation_writer st)
    (current_session st) (S (inference_count st)) (samples_written st) (session_active st).

(** The state when [inference_loop] starts: no file, no session. *)
Definition init_inf_state : inf_state := mk_inf_state ∅ None None None None 0 0 false.

Definition set_session_active (b : bool) (st : inf_state) : inf_state :=
  mk_inf_state (files st) (signal_writer st) (filtered_writer st) (annotation_writer st)
    (current_session st) (inference_count st) (samples_written st) b.

(** One turn of [inference_loop]: [msg] is what [control_queue.get_nowait()]
    returned ([None]: [Empty]), [segment] what [inference_queue.get] returned
    ([None]: [Empty]), [timestamp] the [strftime("%d%m%y_%H%M%S")] of
    [datetime.now()]. *)
Definition inference_step (interpreter : option interpreter) (msg : option string)
    (segment : option processed) (timestamp : string) (st : inf_state) : inf_state :=
  let st := match msg with
            | Some m => if String.eqb m "STOP_SESSION" && session_active st
                        then set_session_active false (stop_session st) else st
            | None => st
            end in
  match segment with
  | None => st
  | Some seg =>
      let st := if session_active st then st
                else set_session_active true (start_session (String.append "ecg_" timestamp) st) in
      process_segment interpreter seg st
  end.

End Inference.

(* ------------------------------------------------------------------ *)
(** ** Windower: the decoded stream and the windows it should give *)
(* ------------------------------------------------------------------ *)
Module SegmentationModel.
Import Segmentation.

(** Every sample decoded from a sequence of packets, in arrival order. *)
Definition samples_of (packets : list (list Byte.byte)) : list sample :=
  concat (map (fun p => default [] (unpack_packet p)) packets).

(** The overlap carried into window [k]: nothing for the first window,
    otherwise the 256 samples starting at position [1024 * k]. *)
Definition overlap_at (all : list sample) (k : nat) : list sample :=
  if Nat.eqb k 0 then [] else take OVERLAP_SIZE (drop (SEGMENT_SIZE * k) all).

(** Window [k] as [_create_segment] builds it from the decoded stream. *)
Definition expected_segment (all : list sample) (k : nat) : option segment :=
  build_segment k (overlap_at all k)
    (take (SEGMENT_SIZE + OVERLAP_SIZE) (drop (SEGMENT_SIZE * k) all)).

(** What the loop maintains after consuming the packets that decode to
    [all], having emitted [out]. *)
Definition seg_inv (all : list sample) (st : seg_state) (out : list segment) : Prop :=
  let E := length out in
  segment_count st = E /\
  segment_buffer st = drop (SEGMENT_SIZE * E) all /\
  SEGMENT_SIZE * E <= length all < SEGMENT_SIZE * E + (SEGMENT_SIZE + OVERLAP_SIZE) /\
  (0 < E -> SEGMENT_SIZE * E + OVERLAP_SIZE <= length all) /\
  overlap_buffer st = overlap_at all E /\
  map Some out = map (expected_segment all) (seq 0 E).

(** What window [k] of the decoded stream [all] is, field by field. *)
Definition window_props (all : list sample) (k : nat) (seg : segment) : Prop :=
  (SEGMENT_SIZE * k + (SEGMENT_SIZE + OVERLAP_SIZE) <= length all) /\
  (segment_id seg = k) /\
  (timestamp_ms seg = map fst (take SEGMENT_SIZE (drop (SEGMENT_SIZE * k) all))) /\
  (extended_timestamp_ms seg = map fst (overlap_at all k ++
      take (SEGMENT_SIZE + OVERLAP_SIZE) (drop (SEGMENT_SIZE * k) all))) /\
  (extended_adc_value seg = map snd (overlap_at all k ++
      take (SEGMENT_SIZE + OVERLAP_SIZE) (drop (SEGMENT_SIZE * k) all))) /\
  (core_start_idx seg = if Nat.eqb k 0 then 0 else OVERLAP_SIZE) /\
  (core_end_idx seg = core_start_idx seg + SEGMENT_SIZE) /\
  (sample_count seg = SEGMENT_SIZE) /\
  (head (timestamp_ms seg) = Some (start_time seg)) /\
  (last (timestamp_ms seg) = Some (end_time seg)).

End SegmentationModel.

(* ------------------------------------------------------------------ *)
(** ** Concrete inputs *)
(* ------------------------------------------------------------------ *)
Module Inputs.
Import Acquisition.

(** Six bytes that are not the marker: one block of line noise. *)
Definition garbage6 : list Byte.byte := repeat Byte.x00 6.

(** [n] consecutive blocks, each six noise bytes followed by the marker. *)
Fixpoint resync_blocks (n : nat) : stream :=
  match n with
  | O => []
  | S n' => garbage6 ++ MARKER ++ resync_blocks n'
  end.

(** Byte [n mod 256]. *)
Definition byte_of_nat (n : nat) : Byte.byte :=
  match Byte.of_N (N.of_nat (n mod 256)) with Some b => b | None => Byte.x00 end.

(** The six wire bytes of the sample [(ts, ts)], for [ts < 65536]. *)
Definition encode_sample (ts : nat) : list Byte.byte :=
  [byte_of_nat ts; byte_of_nat (ts / 256); Byte.x00; Byte.x00;
   byte_of_nat ts; byte_of_nat (ts / 256)].

(** Packet [j] of a ramp: timestamps [256 * j .. 256 * j + 255]. *)
Definition ramp_packet (j : nat) : list Byte.byte :=
  concat (map (fun i => encode_sample (256 * j + i)) (seq 0 256)).

Definition ramp_packets (n : nat) : list (list Byte.byte) := map ramp_packet (seq 0 n).

(** A valid payload: 256 samples with all bytes zero. *)
Definition zero_payload : list Byte.byte := repeat Byte.x00 PACKET_DATA_SIZE.

(** A filter library whose designs succeed and whose [filtfilt] returns
    its input unchanged. *)
Definition id_lib : Filtering.scipy_signal :=
  Filtering.mk_scipy_signal
    (fun _ _ _ => Some ([1%float], [1%float]))
    (fun _ _ _ _ _ => Some [1%float])
    (fun _ _ _ _ => Some (1%Z, 1%float))
    (fun _ _ _ _ => Some ([1%float], [1%float]))
    (fun _ _ x => Some x)
    (fun _ => 0%Z).

(** An interpreter whose [invoke] raises. *)
Definition failing_interpreter : Inference.interpreter :=
  Inference.mk_interpreter (fun _ => None).

(** A processed window of two samples. *)
Definition small_processed : Filtering.processed :=
  Filtering.mk_processed 7 [10%Z; 11%Z] 10 11 [500%Z; 510%Z] [0%float; 1%float]
    [0%float; 1%float] 2.

End Inputs.

(* ------------------------------------------------------------------ *)
(** ** deploy_pico.py, the acquisition loop, the control methods and the inference loop *)
(* ------------------------------------------------------------------ *)
Module Pico.

Definition BUFFER_SIZE : nat := 256.
(** [MARKER = b"MARKER"] *)
Definition MARKER : list Byte.byte :=
  [Byte.x4d; Byte.x41; Byte.x52; Byte.x4b; Byte.x45; Byte.x52].

(** Byte [k] (from the least significant) of the two's-complement value
    [v], as MicroPython's [struct.pack_into] stores it. *)
Definition byte_at (v : Z) (k : nat) : Byte.byte :=
  match Byte.of_N (Z.to_N (Z.land (Z.shiftr v (8 * Z.of_nat k)) 255)) with
  | Some b => b
  | None => Byte.x00
  end.

(** The six bytes of [struct.pack('<IH', timestamp_ms, adc_value)]. *)
Definition pack_IH (timestamp_ms adc_value : Z) : list Byte.byte :=
  [byte_at timestamp_ms 0; byte_at timestamp_ms 1; byte_at timestamp_ms 2;
   byte_at timestamp_ms 3; byte_at adc_value 0; byte_at adc_value 1].

(** [struct.pack_into(fmt, buffer, offset, ...)]: overwrites the packed
    bytes at [offset] (the callback below only writes at offsets up to
    [255 * 6] of its [1536]-byte buffer, where it does not raise). *)
Definition pack_into (buffer : list Byte.byte) (offset : nat) (bs : list Byte.byte)
  : list Byte.byte :=
  take offset buffer ++ bs ++ drop (offset + length bs) buffer.

(** How the [try] block of one [_flush_buffer] goes: the writes and the
    flush complete, or one of them raises after the first [sent] bytes of
    the frame reached the port (the [except: pass] swallows it).  Bytes a
    failed flush leaves in [sys.stdout]'s own buffer count as lost. *)
Inductive usb_write :=
| WriteOk
| WriteFails (sent : nat).

(** The fields of [ECGAcquisition], the bytes written to
    [sys.stdout.buffer] so far, and how the coming flushes' writes will go,
    in order (they succeed once the list is used up). *)
Record pico := mk_pico {
  is_recording : bool;
  sample_count : nat;
  adc_buffer : list Byte.byte;
  buffer_index : nat;
  start_time_ms : Z;
  stdout : list Byte.byte;
  usb : list usb_write
}.

Definition init_pico : pico :=
  mk_pico false 0 (repeat Byte.x00 (BUFFER_SIZE * 6)) 0 0 [] [].

(** The bytes one flush puts on the port, and the outcomes left. *)
Definition flush_out (outcomes : list usb_write) (frame : list Byte.byte)
  : list Byte.byte * list usb_write :=
  match outcomes with
  | [] => (frame, [])
  | WriteOk :: rest => (frame, rest)
  | WriteFails sent :: rest => (take sent frame, rest)
  end.

(** [_flush_buffer]: [MARKER], then the packed bytes, inside a [try]
    whose failures are ignored; [buffer_index] is reset either way. *)
Definition flush_buffer (st : pico) : pico :=
  let data_size := buffer_index st * 6 in
  let '(out, rest) := flush_out (usb st) (MARKER ++ take data_size (adc_buffer st)) in
  mk_pico (is_recording st) (sample_count st) (adc_buffer st) 0 (start_time_ms st)
    (stdout st ++ out) rest.

(** [start_recording], [now] being [time.ticks_ms()]; the LED and the
    timer are not modelled. *)
Definition start_recording (now : Z) (st : pico) : pico :=
  if is_recording st then st
  else mk_pico true 0 (adc_buffer st) 0 now (stdout st) (usb st).

Definition stop_recording (st : pico) : pico :=
  if is_recording st then
    let st1 := mk_pico false (sample_count st) (adc_buffer st) (buffer_index st)
                 (start_time_ms st) (stdout st) (usb st) in
    if Nat.ltb 0 (buffer_index st1) then flush_buffer st1 else st1
  else st.

(** [_sample_callback]: [adc_value] is what [self.adc.read_u16()] returned
    and [timestamp_ms] what the [time.ticks_add(...)] expression gave. *)
Definition sample_callback (adc_value timestamp_ms : Z) (st : pico) : pico :=
  if Nat.ltb (buffer_index st) BUFFER_SIZE then
    let offset := buffer_index st * 6 in
    let st1 := mk_pico (is_recording st) (S (sample_count st))
                 (pack_into (adc_buffer st) offset (pack_IH timestamp_ms adc_value))
                 (S (buffer_index st)) (start_time_ms st) (stdout st) (usb st) in
    if Nat.leb BUFFER_SIZE (buffer_index st1) then flush_buffer st1 else st1
  else st.

(** A recording session: [start_recording], one timer callback per
    [(adc_value, timestamp_ms)] reading, then [stop_recording]. *)
Definition session (now : Z) (readings : list (Z * Z)) (st : pico) : pico :=
  stop_recording
    (fold_left (fun s r => sample_callback r.1 r.2 s) readings (start_recording now st)).

End Pico.

Module AcquisitionLoop.
Import Acquisition.

(** [acquisition_loop] while [recording], once the bytes [s] have all
    arrived: a read is attempted only while [in_waiting >= PACKET_SIZE],
    and a truthy packet is put on [packet_queue]; the packets put, and the
    bytes left waiting ([fuel] bounds the turns; every read consumes
    bytes). *)
Fixpoint acquisition_reads (fuel : nat) (s : stream) : list (list Byte.byte) * stream :=
  match fuel with
  | O => ([], s)
  | S f =>
      if Nat.leb PACKET_SIZE (length s) then
        let r := read_packet s in
        let '(ps, rest) := acquisition_reads f (rr_rest r) in
        (match rr_packet r with Some ((_ :: _) as p) => p :: ps | _ => ps end, rest)
      else ([], s)
  end.

Definition acquisition_run (s : stream) : list (list Byte.byte) * stream :=
  acquisition_reads (length s) s.

End AcquisitionLoop.

Module PicoModel.
Import Pico.

(** The byte stream of a session whose packed samples are [samples]:
    one [MARKER]-prefixed frame per 256 of them, the last one possibly
    shorter. *)
Fixpoint frames_fuel (fuel : nat) (samples : list (list Byte.byte)) : list Byte.byte :=
  match fuel, samples with
  | O, _ | _, [] => []
  | S f, _ => MARKER ++ concat (take BUFFER_SIZE samples)
                ++ frames_fuel f (drop BUFFER_SIZE samples)
  end.

Definition frames (samples : list (list Byte.byte)) : list Byte.byte :=
  frames_fuel (length samples) samples.

(** The same, frame by frame. *)
Fixpoint frame_list_fuel (fuel : nat) (samples : list (list Byte.byte))
  : list (list Byte.byte) :=
  match fuel, samples with
  | O, _ | _, [] => []
  | S f, _ => (MARKER ++ concat (take BUFFER_SIZE samples))
                :: frame_list_fuel f (drop BUFFER_SIZE samples)
  end.

Definition frame_list (samples : list (list Byte.byte)) : list (list Byte.byte) :=
  frame_list_fuel (length samples) samples.

(** What reaches the port when the frames [fs] are flushed in turn, the
    writes going as [outcomes] says. *)
Fixpoint deliver (outcomes : list usb_write) (fs : list (list Byte.byte))
  : list Byte.byte :=
  match fs with
  | [] => []
  | f :: fs' => (flush_out outcomes f).1 ++ deliver (flush_out outcomes f).2 fs'
  end.

(** The wire image of a reading [(adc_value, timestamp_ms)]. *)
Definition packed (r : Z * Z) : list Byte.byte := pack_IH r.2 r.1.

(** The sample [(timestamp_ms, adc_value)] the receiver should decode. *)
Definition as_sample (r : Z * Z) : Segmentation.sample := (r.2, r.1).

Definition in_range (r : Z * Z) : Prop :=
  (0 <= r.1 < 2 ^ 16)%Z /\ (0 <= r.2 < 2 ^ 32)%Z.

End PicoModel.

Module AcquisitionControl.

(** The messages the control methods put on [status_queue]. *)
Inductive ctl_msg :=
| ClearedBytes (n : nat)        (* ('DEBUG', 'Cleared n bytes before START') *)
| PicoAck (response : string)   (* ('INFO', 'Pico ACK: response') *)
| BinaryAck                     (* ('WARN', 'Binary data in ACK: ...') *)
| NoAck                         (* ('WARN', 'No ACK received from Pico') *)
| RecordingStart                (* ('STATUS', 'RECORDING_START') *)
| RecordingStop.                (* ('STATUS', 'RECORDING_STOP') *)

(** The fields of [AcquisitionProcess] the control methods touch, the
    lines written to the port, and the queue ends they feed. *)
Record acq_state := mk_acq_state {
  recording : bool;
  exiting : bool;
  ser_is_open : bool;
  ser_written : list string;
  ctl_status : list ctl_msg;
  inf_control_queue : list string
}.

(** After [setup]: port open, not recording. *)
Definition init_acq_state : acq_state := mk_acq_state false false true [] [] [].

(** What the port does during one call: [in_waiting] before
    [reset_input_buffer()], whether [write] and [flush] succeed, and the
    ACK read: [None] when nothing is waiting after the pause, [Some None]
    when [decode()] raises [UnicodeDecodeError], [Some (Some r)] the
    decoded and stripped line. *)
Record ser_env := mk_ser_env {
  bytes_before : nat;
  write_ok : bool;
  ack : option (option string)
}.

Definition nl : string := String (Ascii.ascii_of_nat 10) EmptyString.
(** [b"START\n"] and [b"STOP\n"] *)
Definition START_CMD : string := String.append "START" nl.
Definition STOP_CMD : string := String.append "STOP" nl.

(** [start_acquisition]; a failing [write] raises out of the method (no
    [try] around it), after [recording] was set. *)
Definition start_acquisition (env : ser_env) (st : acq_state) : acq_state :=
  if recording st then st
  else
    let status1 := if Nat.ltb 0 (bytes_before env)
                   then ctl_status st ++ [ClearedBytes (bytes_before env)]
                   else ctl_status st in
    if negb (write_ok env) then
      mk_acq_state true (exiting st) (ser_is_open st) (ser_written st) status1
        (inf_control_queue st)
    else
      let ack_msg := match ack env with
                     | None => NoAck
                     | Some None => BinaryAck
                     | Some (Some r) => PicoAck r
                     end in
      mk_acq_state true (exiting st) (ser_is_open st) (ser_written st ++ [START_CMD])
        (status1 ++ [ack_msg; RecordingStart]) (inf_control_queue st).

(** [stop_acquisition]; a failing [write] is swallowed by [except: pass]. *)
Definition stop_acquisition (env : ser_env) (st : acq_state) : acq_state :=
  if negb (recording st) then st
  else
    mk_acq_state false (exiting st) (ser_is_open st)
      (if write_ok env then ser_written st ++ [STOP_CMD] else ser_written st)
      (ctl_status st ++ [RecordingStop]) (inf_control_queue st ++ ["STOP_SESSION"]).

Definition toggle_recording (env : ser_env) (st : acq_state) : acq_state :=
  if exiting st then st
  else if negb (recording st) then start_acquisition env st
  else stop_acquisition env st.

(** [cleanup]; its final INFO message is not modelled. *)
Definition cleanup (env : ser_env) (st : acq_state) : acq_state :=
  let st1 := mk_acq_state (recording st) true (ser_is_open st) (ser_written st)
               (ctl_status st) (inf_control_queue st) in
  let st2 := if recording st1 then stop_acquisition env st1 else st1 in
  mk_acq_state (recording st2) (exiting st2) false (ser_written st2) (ctl_status st2)
    (inf_control_queue st2).

(** Button presses, one port behaviour each. *)
Definition toggles (envs : list ser_env) (st : acq_state) : acq_state :=
  fold_left (fun s e => toggle_recording e s) envs st.

End AcquisitionControl.

Module InferenceModel.
Import Filtering Inference.

(** Turns of [inference_loop]: what [get_nowait] returned, what
    [inference_queue.get] returned and the clock's timestamp. *)
Definition inference_run (interpreter : option interpreter)
    (turns : list (option string * option processed * string)) (st : inf_state) : inf_state :=
  fold_left (fun s t => inference_step interpreter t.1.1 t.1.2 t.2 s) turns st.

Definition is_rhythm_row (r : row) : bool :=
  match r with RhythmRow _ _ _ _ _ _ => true | _ => false end.

(** What [inference_loop] keeps between turns: while a session is active
    the three writers are that session's files and its rhythm file holds
    the header and one row per inference; otherwise everything is closed
    and the counters are zero. *)
Definition session_inv (st : inf_state) : Prop :=
  (session_active st = true /\
   exists name rows,
     current_session st = Some name /\
     signal_writer st = Some (signal_path name) /\
     filtered_writer st = Some (filtered_path name) /\
     annotation_writer st = Some (annotation_path name) /\
     files st !! annotation_path name = Some (HeaderRow rhythm_header :: rows) /\
     Forall (fun r => is_rhythm_row r = true) rows /\
     length rows = inference_count st) \/
  (session_active st = false /\ current_session st = None /\
   signal_writer st = None /\ filtered_writer st = None /\ annotation_writer st = None /\
   inference_count st = 0 /\ samples_written st = 0).

End InferenceModel.

(* ------------------------------------------------------------------ *)
(** ** Frame reader: lemmas *)
(* ------------------------------------------------------------------ *)
Module AcquisitionFacts.
Import Acquisition Inputs.

Lemma length_resync_blocks n : length (resync_blocks n) = 12 * n.
Proof. induction n as [|n IH]; simpl; [done|]. rewrite IH. lia. Qed.

Lemma find_marker_at_marker (s : stream) : find_marker (MARKER ++ s) = (true, s).
Proof. destruct s; reflexivity. Qed.

Lemma read_packet_fuel_garbage_marker (f : nat) (s : stream) :
  rr_depth (read_packet_fuel (S f) (garbage6 ++ MARKER ++ s))
  = S (rr_depth (read_packet_fuel f s)).
Proof. destruct s; reflexivity. Qed.

Ltac case_matches :=
  repeat match goal with
         | |- context [if ?c then _ else _] => destruct c
         | |- context [let '(_, _) := ?p in _] => destruct p
         | |- context [match ?p with (_, _) => _ end] => destruct p
         end.

Lemma read_packet_fuel_depth_pos (f : nat) (s : stream) :
  1 <= rr_depth (read_packet_fuel f s).
Proof. destruct f; simpl; case_matches; simpl; lia. Qed.

Lemma resync_blocks_depth (n f : nat) :
  n <= f -> rr_depth (read_packet_fuel f (resync_blocks n)) = S n.
Proof.
  revert f. induction n as [|n IH]; intros f Hf.
  - destruct f; reflexivity.
  - destruct f as [|f]; [lia|].
    change (resync_blocks (S n)) with (garbage6 ++ MARKER ++ resync_blocks n).
    rewrite read_packet_fuel_garbage_marker.
    rewrite IH; [done | lia].
Qed.

Lemma find_marker_loop_suffix (buf : list Byte.byte) (s s' : stream) (b : bool) :
  find_marker_loop buf s = (b, s') -> length s' <= length s.
Proof.
  revert buf. induction s as [|x s IH]; intros buf; simpl.
  - destruct (bytes_eqb _ _); intros H; inversion H; simpl; lia.
  - destruct (bytes_eqb _ _).
    + intros H; inversion H; subst; simpl; lia.
    + destruct (Nat.ltb 1000 _).
      * intros H; inversion H; subst; lia.
      * intros H. apply IH in H. lia.
Qed.

Lemma find_marker_fill_consumes (n : nat) (buf : list Byte.byte) (s s' : stream) :
  find_marker_fill n buf s = (true, s') -> length s' + n <= length s.
Proof.
  revert buf s. induction n as [|n IH]; intros buf s; simpl.
  - intros H. apply find_marker_loop_suffix in H. lia.
  - destruct s as [|x s]; [intros H; discriminate|].
    intros H. apply IH in H. simpl. lia.
Qed.

Lemma find_marker_consumes (s s' : stream) :
  find_marker s = (true, s') -> length s' + 6 <= length s.
Proof. apply find_marker_fill_consumes. Qed.

(** With room for more frames than the stream has bytes, the bounded
    stack changes nothing. *)
Lemma read_packet_limited_fuel (f : nat) (s : stream) :
  length s <= f -> read_packet_limited (S f) s = Some (read_packet_fuel f s).
Proof.
  revert s. induction f as [|f IH]; intros s Hs.
  - destruct s; [reflexivity|cbn in Hs; lia].
  - cbn [read_packet_fuel]. remember (S f) as g eqn:Eg.
    cbn [read_packet_limited]. unfold ser_read.
    destruct (negb (bytes_eqb (take (length MARKER) s) MARKER)) eqn:Em;
      [|destruct (negb (_ =? _)); reflexivity].
    destruct (find_marker (drop (length MARKER) s)) as [[|] s2] eqn:Ef; [|reflexivity].
    apply find_marker_consumes in Ef. rewrite length_drop in Ef. cbn in Ef.
    subst g. rewrite IH by lia. reflexivity.
Qed.

Lemma read_packet_limited_resync (room n : nat) :
  option_map rr_depth (read_packet_limited room (resync_blocks n))
  = if Nat.leb room n then None else Some (S n).
Proof.
  revert room. induction n as [|n IH]; intros room.
  - destruct room; reflexivity.
  - destruct room as [|room]; [reflexivity|].
    change (resync_blocks (S n)) with (garbage6 ++ MARKER ++ resync_blocks n).
    cbn [read_packet_limited]. unfold ser_read.
    replace (take (length MARKER) (garbage6 ++ MARKER ++ resync_blocks n)) with garbage6
      by reflexivity.
    replace (drop (length MARKER) (garbage6 ++ MARKER ++ resync_blocks n))
      with (MARKER ++ resync_blocks n) by reflexivity.
    rewrite find_marker_at_marker. cbn [negb bytes_eqb garbage6 MARKER Byte.eqb andb].
    specialize (IH room). cbn [Nat.leb].
    destruct (read_packet_limited room (resync_blocks n)) as [r|];
      destruct (Nat.leb room n); cbn in *; congruence.
Qed.

(** Every self-call of [_read_packet] is preceded by at least twelve
    consumed bytes: six mismatching marker bytes and six in [_find_marker]. *)
Lemma read_packet_fuel_depth_bound (f : nat) (s : stream) :
  12 * (rr_depth (read_packet_fuel f s) - 1) <= length s.
Proof.
  revert s. induction f as [|f IH]; intros s; cbn [read_packet_fuel]; unfold ser_read;
    destruct (negb (bytes_eqb _ MARKER)).
  - destruct (find_marker _) as [[|] s2]; cbn; lia.
  - destruct (negb _); cbn; lia.
  - destruct (find_marker (drop (length MARKER) s)) as [[|] s2] eqn:Hf; cbn; [|lia].
    apply find_marker_consumes in Hf. rewrite length_drop in Hf.
    specialize (IH s2). pose proof (read_packet_fuel_depth_pos f s2).
    cbn in Hf. lia.
  - destruct (negb _); cbn; lia.
Qed.

End AcquisitionFacts.

Module SegmentationFacts.
Import Acquisition Segmentation SegmentationModel.

Lemma unpack_packet_length (n : nat) (p : list Byte.byte) :
  length p = 6 * n -> exists l, unpack_packet p = Some l /\ length l = n.
Proof.
  revert p. induction n as [|n IH]; intros p Hp.
  - destruct p; [|simpl in Hp; lia]. exists []. done.
  - do 6 (destruct p as [|? p]; [simpl in Hp; lia|]).
    destruct (IH p) as [l [Hl Hlen]]; [simpl in Hp; lia|].
    eexists. simpl. rewrite Hl. split; [done|]. simpl. lia.
Qed.

Lemma unpack_valid_packet (p : list Byte.byte) :
  length p = PACKET_DATA_SIZE ->
  exists l, unpack_packet p = Some l /\ length l = BUFFER_SIZE.
Proof. intros Hp. apply unpack_packet_length. rewrite Hp. reflexivity. Qed.

Lemma samples_of_snoc (ps : list (list Byte.byte)) (p : list Byte.byte) (l : list sample) :
  unpack_packet p = Some l -> samples_of (ps ++ [p]) = samples_of ps ++ l.
Proof.
  intros Hp. unfold samples_of. rewrite map_app, concat_app. simpl.
  rewrite Hp. simpl. rewrite app_nil_r. done.
Qed.

Lemma length_samples_of (ps : list (list Byte.byte)) :
  Forall (fun p => length p = PACKET_DATA_SIZE) ps ->
  length (samples_of ps) = 256 * length ps.
Proof.
  induction 1 as [|p ps Hp _ IH]; [done|].
  destruct (unpack_valid_packet p Hp) as [l [Hl Hlen]].
  unfold samples_of in *. simpl. rewrite Hl. simpl.
  rewrite length_app, IH, Hlen. unfold BUFFER_SIZE. lia.
Qed.

Lemma take_drop_app {A} (l l' : list A) (n m : nat) :
  m + n <= length l -> take n (drop m (l ++ l')) = take n (drop m l).
Proof.
  intros H. rewrite drop_app_le by lia.
  rewrite take_app_le; [done|]. rewrite length_drop. lia.
Qed.

Lemma overlap_at_app (all l : list sample) (k : nat) :
  (k = 0 \/ SEGMENT_SIZE * k + OVERLAP_SIZE <= length all) ->
  overlap_at (all ++ l) k = overlap_at all k.
Proof.
  unfold overlap_at. destruct (Nat.eqb_spec k 0) as [->|Hk]; [done|].
  intros [H|H]; [lia|]. apply take_drop_app. exact H.
Qed.

Lemma expected_segment_app (all l : list sample) (k : nat) :
  SEGMENT_SIZE * k + (SEGMENT_SIZE + OVERLAP_SIZE) <= length all ->
  expected_segment (all ++ l) k = expected_segment all k.
Proof.
  intros H. unfold expected_segment.
  rewrite overlap_at_app by (right; unfold OVERLAP_SIZE, SEGMENT_SIZE in *; lia).
  rewrite take_drop_app by exact H. done.
Qed.

Lemma map_expected_segment_app (all l : list sample) (E : nat) :
  (0 < E -> SEGMENT_SIZE * E + OVERLAP_SIZE <= length all) ->
  map (expected_segment (all ++ l)) (seq 0 E) = map (expected_segment all) (seq 0 E).
Proof.
  intros H. apply map_ext_in. intros k Hk. apply in_seq in Hk.
  apply expected_segment_app. unfold OVERLAP_SIZE, SEGMENT_SIZE in *.
  assert (0 < E) as HE by lia. specialize (H HE). lia.
Qed.

Lemma build_segment_spec (c : nat) (ov w : list sample) :
  SEGMENT_SIZE <= length w ->
  exists seg, build_segment c ov w = Some seg /\
    segment_id seg = c /\
    timestamp_ms seg = map fst (take SEGMENT_SIZE w) /\
    extended_timestamp_ms seg = map fst (ov ++ w) /\
    extended_adc_value seg = map snd (ov ++ w) /\
    core_start_idx seg = length ov /\
    core_end_idx seg = length ov + SEGMENT_SIZE /\
    sample_count seg = SEGMENT_SIZE /\
    head (timestamp_ms seg) = Some (start_time seg) /\
    last (timestamp_ms seg) = Some (end_time seg).
Proof.
  intros Hw. unfold build_segment, py_slice.
  replace (length ov + SEGMENT_SIZE - length ov) with SEGMENT_SIZE by lia.
  rewrite map_app, drop_app_length' by (rewrite length_map; done).
  rewrite firstn_map.
  assert (length (take SEGMENT_SIZE w) = SEGMENT_SIZE) as Hc
    by (apply length_take_le; exact Hw).
  destruct (take SEGMENT_SIZE w) as [|x cs] eqn:Hcore; [discriminate|].
  simpl map. cbn [hd_error].
  match goal with |- context [last ?l] => destruct (last l) as [e|] eqn:Hl end;
    [|apply last_None in Hl; discriminate].
  eexists. split; [reflexivity|]. simpl.
  rewrite map_app. repeat split; try done.
Qed.

Lemma expected_segment_spec (all : list sample) (k : nat) :
  SEGMENT_SIZE * k + (SEGMENT_SIZE + OVERLAP_SIZE) <= length all ->
  exists seg, expected_segment all k = Some seg /\
    segment_id seg = k /\
    timestamp_ms seg = map fst (take SEGMENT_SIZE (drop (SEGMENT_SIZE * k) all)) /\
    extended_timestamp_ms seg = map fst (overlap_at all k ++
        take (SEGMENT_SIZE + OVERLAP_SIZE) (drop (SEGMENT_SIZE * k) all)) /\
    extended_adc_value seg = map snd (overlap_at all k ++
        take (SEGMENT_SIZE + OVERLAP_SIZE) (drop (SEGMENT_SIZE * k) all)) /\
    core_start_idx seg = length (overlap_at all k) /\
    core_end_idx seg = length (overlap_at all k) + SEGMENT_SIZE /\
    sample_count seg = SEGMENT_SIZE /\
    head (timestamp_ms seg) = Some (start_time seg) /\
    last (timestamp_ms seg) = Some (end_time seg).
Proof.
  intros H. unfold expected_segment.
  destruct (build_segment_spec k (overlap_at all k)
              (take (SEGMENT_SIZE + OVERLAP_SIZE) (drop (SEGMENT_SIZE * k) all)))
    as (seg & Hs & Hid & Hts & Hrest).
  { rewrite length_take_le; [unfold OVERLAP_SIZE; lia|].
    rewrite length_drop. lia. }
  rewrite take_take in Hts.
  replace (Nat.min SEGMENT_SIZE (SEGMENT_SIZE + OVERLAP_SIZE)) with SEGMENT_SIZE in Hts by lia.
  exists seg. split; [done|]. split; [done|]. split; [done|]. exact Hrest.
Qed.

Lemma length_overlap_at (all : list sample) (k : nat) :
  (k = 0 \/ SEGMENT_SIZE * k + OVERLAP_SIZE <= length all) ->
  length (overlap_at all k) = if Nat.eqb k 0 then 0 else OVERLAP_SIZE.
Proof.
  unfold overlap_at. destruct (Nat.eqb_spec k 0); [done|].
  intros [H|H]; [lia|]. apply length_take_le. rewrite length_drop. lia.
Qed.

Lemma on_packet_inv (all : list sample) (st : seg_state) (out : list segment)
    (p : list Byte.byte) (l : list sample) :
  seg_inv all st out -> unpack_packet p = Some l -> length l = BUFFER_SIZE ->
  seg_inv (all ++ l) (fst (on_packet st p)) (out ++ snd (on_packet st p)).
Proof.
  intros (Hc & Hb & [Hlo Hhi] & Hpos & Hov & Hmap) Hp Hl.
  unfold on_packet. rewrite Hp. cbn [segment_buffer overlap_buffer segment_count].
  set (E := length out) in *.
  assert (Hbuf : segment_buffer st ++ l = drop (SEGMENT_SIZE * E) (all ++ l))
    by (rewrite Hb, drop_app_le by lia; done).
  assert (HovE : overlap_at all E = overlap_at (all ++ l) E).
  { symmetry. apply overlap_at_app.
    destruct (Nat.eq_dec E 0); [left; done|right; apply Hpos; lia]. }
  assert (Hmap' : map (expected_segment all) (seq 0 E)
                  = map (expected_segment (all ++ l)) (seq 0 E))
    by (symmetry; apply map_expected_segment_app; exact Hpos).
  assert (Hlen : length (all ++ l) = length all + BUFFER_SIZE)
    by (rewrite length_app, Hl; done).
  destruct (Nat.leb_spec (SEGMENT_SIZE + OVERLAP_SIZE)
              (length (segment_buffer st ++ l))) as [Hge|Hlt].
  - unfold create_segment. cbn [segment_buffer overlap_buffer segment_count].
    rewrite Hc, Hov, Hbuf, HovE.
    rewrite Hbuf, length_drop in Hge.
    change (build_segment E (overlap_at (all ++ l) E)
              (take (SEGMENT_SIZE + OVERLAP_SIZE) (drop (SEGMENT_SIZE * E) (all ++ l))))
      with (expected_segment (all ++ l) E).
    destruct (expected_segment_spec (all ++ l) E) as (seg & Hseg & _); [lia|].
    rewrite Hseg. cbn [fst snd].
    unfold seg_inv. cbv zeta. rewrite length_app. cbn [length]. fold E.
    replace (E + 1) with (S E) by lia. cbn [segment_buffer overlap_buffer segment_count].
    unfold SEGMENT_SIZE, OVERLAP_SIZE, BUFFER_SIZE in *.
    split; [done|]. split.
    { rewrite drop_drop. replace (1024 * E + 1024) with (1024 * S E) by lia. done. }
    split; [lia|]. split; [lia|]. split.
    { unfold py_slice, overlap_at. cbn [Nat.eqb]. rewrite drop_drop.
      replace (1024 + 256 - 1024) with 256 by lia.
      replace (1024 * E + 1024) with (1024 * S E) by lia. done. }
    rewrite seq_S, !map_app, Hmap, Hmap'. cbn. rewrite Hseg. done.
  - cbn [fst snd]. rewrite app_nil_r. rewrite Hbuf, length_drop in Hlt.
    unfold seg_inv. cbv zeta. fold E. cbn [segment_buffer overlap_buffer segment_count].
    unfold SEGMENT_SIZE, OVERLAP_SIZE, BUFFER_SIZE in *.
    split; [done|]. split; [done|]. split; [lia|]. split; [lia|].
    split; [rewrite Hov; exact HovE|]. rewrite Hmap. exact Hmap'.
Qed.

Lemma run_packets_snoc (st : seg_state) (ps : list (list Byte.byte)) (p : list Byte.byte) :
  run_packets st (ps ++ [p]) =
  (fst (on_packet (fst (run_packets st ps)) p),
   snd (run_packets st ps) ++ snd (on_packet (fst (run_packets st ps)) p)).
Proof.
  unfold run_packets. rewrite fold_left_app. cbn [fold_left].
  destruct (fold_left _ ps (st, [])) as [s out]. cbn.
  destruct (on_packet s p). done.
Qed.

Lemma run_packets_inv (ps : list (list Byte.byte)) :
  Forall (fun p => length p = PACKET_DATA_SIZE) ps ->
  seg_inv (samples_of ps) (fst (run_packets init_seg_state ps))
          (snd (run_packets init_seg_state ps)).
Proof.
  induction ps as [|p ps IH] using rev_ind; intros Hv.
  - unfold seg_inv. cbn. repeat split; lia.
  - apply Forall_app in Hv as [Hv Hp]. inversion Hp as [|? ? Hp1 _]; subst.
    destruct (unpack_valid_packet p Hp1) as [l [Hl Hlen]].
    rewrite (samples_of_snoc ps p l Hl), run_packets_snoc.
    apply on_packet_inv; [apply IH; exact Hv | exact Hl | exact Hlen].
Qed.

(** The number of windows emitted: the largest [K] with
    [1024 * K + 256] decoded samples. *)
Lemma run_packets_count (ps : list (list Byte.byte)) (K : nat) :
  Forall (fun p => length p = PACKET_DATA_SIZE) ps ->
  SEGMENT_SIZE * K + OVERLAP_SIZE <= BUFFER_SIZE * length ps
    < SEGMENT_SIZE * (K + 1) + OVERLAP_SIZE ->
  length (snd (run_packets init_seg_state ps)) = K.
Proof.
  intros Hv HK.
  destruct (run_packets_inv ps Hv) as (_ & _ & [Hlo Hhi] & Hpos & _).
  rewrite (length_samples_of ps Hv) in Hlo, Hhi, Hpos.
  unfold SEGMENT_SIZE, OVERLAP_SIZE, BUFFER_SIZE in *.
  destruct (Nat.eq_dec (length (snd (run_packets init_seg_state ps))) 0) as [H0|H0].
  - rewrite H0 in *. lia.
  - specialize (Hpos ltac:(lia)). lia.
Qed.

Lemma map_Some_Forall2 {A B} (f : B -> option A) (l1 : list A) (l2 : list B) :
  map Some l1 = map f l2 -> Forall2 (fun a b => f b = Some a) l1 l2.
Proof.
  revert l2. induction l1 as [|a l1 IH]; intros [|b l2] H; try discriminate.
  - constructor.
  - injection H as Hb Ht. constructor; [done|]. apply IH. exact Ht.
Qed.

Lemma Forall2_in_r_Forall {A B} (R : A -> B -> Prop) (P : A -> Prop)
    (l1 : list A) (l2 : list B) :
  Forall2 R l1 l2 -> (forall a b, In b l2 -> R a b -> P a) -> Forall P l1.
Proof.
  induction 1 as [|a b l1 l2 Hab _ IH]; intros HP; constructor.
  - apply (HP a b); [left; done|exact Hab].
  - apply IH. intros a' b' Hin. apply HP. right. exact Hin.
Qed.

Lemma Forall2_map_l {A B} (g : A -> B) (R : A -> B -> Prop) (l1 : list A) (l2 : list B) :
  Forall2 R l1 l2 -> (forall a b, R a b -> g a = b) -> map g l1 = l2.
Proof.
  induction 1 as [|a b l1 l2 Hab _ IH]; intros Hg; [done|].
  cbn. rewrite (Hg a b Hab), IH; done.
Qed.

Lemma Forall2_nth_error {A B} (R : A -> B -> Prop) (l1 : list A) (l2 : list B)
    (n : nat) (a : A) :
  Forall2 R l1 l2 -> nth_error l1 n = Some a ->
  exists b, nth_error l2 n = Some b /\ R a b.
Proof.
  intros H. revert n. induction H as [|a' b' l1 l2 Hab _ IH]; intros n Hn.
  - destruct n; discriminate.
  - destruct n as [|n]; cbn in Hn |- *.
    + injection Hn as <-. exists b'. done.
    + apply IH. exact Hn.
Qed.

Lemma nth_error_seq_Some (start len n b : nat) :
  nth_error (seq start len) n = Some b -> b = start + n /\ n < len.
Proof.
  revert start n. induction len as [|len IH]; intros start n H.
  - destruct n; discriminate.
  - destruct n as [|n]; cbn in H.
    + injection H as <-. lia.
    + apply IH in H. lia.
Qed.

(** Every emitted window is window [k] of the decoded stream, for its
    position [k] in emission order. *)
Lemma run_packets_windows (ps : list (list Byte.byte)) :
  Forall (fun p => length p = PACKET_DATA_SIZE) ps ->
  let out := snd (run_packets init_seg_state ps) in
  Forall2 (fun seg k => expected_segment (samples_of ps) k = Some seg)
    out (seq 0 (length out)) /\
  (0 < length out -> SEGMENT_SIZE * length out + OVERLAP_SIZE <= length (samples_of ps)).
Proof.
  intros Hv out.
  destruct (run_packets_inv ps Hv) as (_ & _ & _ & Hpos & _ & Hmap).
  split; [apply map_Some_Forall2; exact Hmap | exact Hpos].
Qed.

Lemma Forall2_strengthen_r {A B} (R : A -> B -> Prop) (Q : B -> Prop)
    (l1 : list A) (l2 : list B) :
  Forall2 R l1 l2 -> (forall b, In b l2 -> Q b) ->
  Forall2 (fun a b => R a b /\ Q b) l1 l2.
Proof.
  induction 1 as [|a b l1 l2 Hab _ IH]; intros HQ; constructor.
  - split; [exact Hab|apply HQ; left; done].
  - apply IH. intros b' Hb'. apply HQ. right. exact Hb'.
Qed.

(** Window [k] in emission order is window [k] of the decoded stream. *)
Lemma emitted_windows (ps : list (list Byte.byte)) :
  Forall (fun p => length p = PACKET_DATA_SIZE) ps ->
  Forall2 (fun seg k => window_props (samples_of ps) k seg)
    (snd (run_packets init_seg_state ps))
    (seq 0 (length (snd (run_packets init_seg_state ps)))).
Proof.
  intros Hv. destruct (run_packets_windows ps Hv) as [H2 Hpos]. cbv zeta in H2, Hpos.
  set (out := snd (run_packets init_seg_state ps)) in *.
  set (all := samples_of ps) in *.
  apply (Forall2_strengthen_r _ (fun k => k < length out)) in H2;
    [|intros k Hk; apply in_seq in Hk; lia].
  eapply Forall2_impl; [exact H2|]. intros seg k [Hk Hlt]. cbv beta in Hk, Hlt.
  assert (Hb : SEGMENT_SIZE * k + (SEGMENT_SIZE + OVERLAP_SIZE) <= length all).
  { specialize (Hpos ltac:(lia)). unfold SEGMENT_SIZE, OVERLAP_SIZE in *. lia. }
  destruct (expected_segment_spec all k Hb)
    as (seg' & Hs & Hid & Hts & Hets & Headc & Hcs & Hce & Hsc & Hhd & Hlast).
  rewrite Hk in Hs. injection Hs as <-.
  assert (Hov : length (overlap_at all k) = if Nat.eqb k 0 then 0 else OVERLAP_SIZE).
  { apply length_overlap_at. destruct (Nat.eq_dec k 0); [left; done|right].
    unfold OVERLAP_SIZE, SEGMENT_SIZE in *. lia. }
  unfold window_props. rewrite Hce, Hcs, Hov.
  repeat split; assumption.
Qed.

(** The leading overlap of window [i + 1] is the tail of window [i]'s
    core-and-trailing-overlap region, for either field of the samples. *)
Lemma overlap_handover {B} (f : sample -> B) (all : list sample) (i : nat) :
  SEGMENT_SIZE * S i + (SEGMENT_SIZE + OVERLAP_SIZE) <= length all ->
  let r := drop (length (overlap_at all i))
             (map f (overlap_at all i ++
                     take (SEGMENT_SIZE + OVERLAP_SIZE) (drop (SEGMENT_SIZE * i) all))) in
  take OVERLAP_SIZE (map f (overlap_at all (S i) ++
      take (SEGMENT_SIZE + OVERLAP_SIZE) (drop (SEGMENT_SIZE * S i) all)))
  = drop (length r - OVERLAP_SIZE) r.
Proof.
  intros Hb r. subst r.
  assert (Hov : length (overlap_at all (S i)) = OVERLAP_SIZE).
  { rewrite length_overlap_at; [done|].
    right. unfold SEGMENT_SIZE, OVERLAP_SIZE, sample in *. lia. }
  rewrite !map_app.
  rewrite drop_app_length' by (rewrite length_map; done).
  rewrite take_app_length' by (rewrite length_map; done).
  rewrite length_map, length_take_le
    by (rewrite length_drop; unfold SEGMENT_SIZE, OVERLAP_SIZE, sample in *; lia).
  rewrite skipn_map. f_equal.
  unfold overlap_at. cbn [Nat.eqb].
  replace (SEGMENT_SIZE + OVERLAP_SIZE - OVERLAP_SIZE) with SEGMENT_SIZE by lia.
  rewrite <- take_drop_commute, drop_drop.
  replace (SEGMENT_SIZE * S i) with (SEGMENT_SIZE * i + SEGMENT_SIZE) by lia.
  done.
Qed.

(** Two consecutive cores are the two consecutive 1024-sample chunks. *)
Lemma cores_adjacent {B} (f : sample -> B) (all : list sample) (i : nat) :
  map f (take SEGMENT_SIZE (drop (SEGMENT_SIZE * i) all)) ++
  map f (take SEGMENT_SIZE (drop (SEGMENT_SIZE * S i) all))
  = map f (take (2 * SEGMENT_SIZE) (drop (SEGMENT_SIZE * i) all)).
Proof.
  rewrite <- map_app. f_equal.
  replace (SEGMENT_SIZE * S i) with (SEGMENT_SIZE * i + SEGMENT_SIZE) by lia.
  rewrite <- drop_drop, take_take_drop. done.
Qed.

End SegmentationFacts.

(* ------------------------------------------------------------------ *)
(** ** The claims *)
(* ------------------------------------------------------------------ *)
Module FilteringFacts.
Import Segmentation SegmentationModel SegmentationFacts Filtering.

Lemma emitted_core_idx (ps : list (list Byte.byte))
    (Hv : Forall (fun p => length p = Acquisition.PACKET_DATA_SIZE) ps) :
  Forall (fun seg => core_start_idx seg = (if Nat.eqb (segment_id seg) 0 then 0 else OVERLAP_SIZE) /\
                     core_end_idx seg = core_start_idx seg + SEGMENT_SIZE)
         (snd (run_packets init_seg_state ps)).
Proof.
  apply (Forall2_in_r_Forall _ _ _ _ (emitted_windows ps Hv)).
  intros seg k _ (_ & Hid & _ & _ & _ & Hcs & Hce & _).
  rewrite Hid. split; [exact Hcs|exact Hce].
Qed.

Lemma filtering_fold (lib : scipy_signal) (segs : list segment) (st : filt_state) :
  let st' := fold_left (filtering_step lib) segs st in
  inference_queue st' = inference_queue st ++ omap (process_segment lib) segs /\
  length (List.filter (fun m => match m with FiltError => true | _ => false end) (status_queue st'))
    = length (List.filter (fun m => match m with FiltError => true | _ => false end) (status_queue st))
      + length (List.filter (fun s => match process_segment lib s with None => true | Some _ => false end) segs) /\
  processed_count st' = processed_count st + length (omap (process_segment lib) segs).
Proof.
  revert st. induction segs as [|s segs IH]; intros st; cbn [fold_left].
  - simpl. rewrite app_nil_r. split; [done|]. lia.
  - destruct (IH (filtering_step lib st s)) as (Hq & He & Hc).
    unfold filtering_step in *. cbn [omap list_omap List.filter].
    destruct (process_segment lib s) as [p|] eqn:Ep; cbn [inference_queue status_queue processed_count] in *.
    + rewrite Hq, <- app_assoc. split; [reflexivity|]. split.
      * rewrite He. destruct (Nat.eqb _ 0); [rewrite List.filter_app, length_app|]; cbn; lia.
      * rewrite Hc. cbn [length]. lia.
    + rewrite Hq. split; [reflexivity|]. split.
      * rewrite He, List.filter_app, length_app. cbn. lia.
      * exact Hc.
Qed.

Lemma process_segment_some_of_check (lib : scipy_signal) (out : list segment) (i : nat)
    (seg : segment) :
  nth_error out i = Some seg ->
  option_map (fun s => match process_segment lib s with Some _ => true | None => false end)
             (nth_error out i) = Some true ->
  exists p, process_segment lib seg = Some p.
Proof.
  intros -> H. cbn [option_map] in H.
  destruct (process_segment lib seg) as [p|]; [exists p; done|discriminate].
Qed.

End FilteringFacts.

Module InferenceFacts.
Import Filtering Inference.

Lemma string_append_inj_l (s a b : string) : String.append s a = String.append s b -> a = b.
Proof. induction s as [|c s IH]; cbn; [done|]. intros H. injection H. exact IH. Qed.

Lemma session_paths_distinct (name : string) :
  signal_path name <> filtered_path name /\ signal_path name <> annotation_path name /\
  filtered_path name <> annotation_path name.
Proof.
  unfold signal_path, filtered_path, annotation_path.
  split; [|split]; intros H; apply string_append_inj_l in H; discriminate.
Qed.

Lemma fresh_session_writes (interp : option interpreter) (seg : processed) (name : string)
    (st : inf_state) :
  let st' := process_segment interp seg (set_session_active true (start_session name st)) in
  session_active st' = true /\
  current_session st' = Some name /\
  files st' !! signal_path name =
    Some (HeaderRow signal_header :: zip_with SignalRow (p_timestamp_ms seg) (raw_signal seg)) /\
  files st' !! filtered_path name =
    Some (HeaderRow signal_header :: zip_with FilteredRow (p_timestamp_ms seg) (filtered_signal seg)) /\
  files st' !! annotation_path name =
    Some [HeaderRow rhythm_header; rhythm_row seg (run_inference interp (processed_signal seg))] /\
  (forall path, path <> signal_path name -> path <> filtered_path name ->
     path <> annotation_path name -> files st' !! path = files st !! path).
Proof.
  destruct (session_paths_distinct name) as (Hsf & Hsa & Hfa).
  cbn -[run_inference signal_path filtered_path annotation_path].
  unfold writerows, open_w.
  split; [done|]. split; [done|].
  split; [simplify_map_eq; reflexivity|].
  split; [simplify_map_eq; reflexivity|].
  split; [simplify_map_eq; reflexivity|].
  intros path H1 H2 H3. simplify_map_eq. reflexivity.
Qed.

End InferenceFacts.

(* ------------------------------------------------------------------ *)
(** ** Pico firmware, frame reader, control, inference loop, windower and filter: further lemmas *)
(* ------------------------------------------------------------------ *)
Module PicoFacts.
Import Pico PicoModel.

Lemma length_pack_IH ts adc : length (pack_IH ts adc) = 6.
Proof. reflexivity. Qed.

Lemma byte_at_Z (v : Z) (k : nat) :
  Segmentation.byte_Z (byte_at v k) = ((v / 2 ^ (8 * Z.of_nat k)) mod 256)%Z.
Proof.
  unfold byte_at, Segmentation.byte_Z.
  assert (Hr : (0 <= Z.land (Z.shiftr v (8 * Z.of_nat k)) 255 < 256)%Z).
  { change 255%Z with (Z.ones 8). rewrite Z.land_ones by lia.
    apply Z.mod_pos_bound. lia. }
  pose proof (Byte.to_of_N_option_map (Z.to_N (Z.land (Z.shiftr v (8 * Z.of_nat k)) 255))) as H.
  destruct (Byte.of_N _) as [b|] eqn:E.
  - cbn in H. destruct (N.leb _ 255) eqn:L; [|discriminate].
    injection H as ->. rewrite Z2N.id by lia.
    change 255%Z with (Z.ones 8). rewrite Z.land_ones by lia.
    rewrite Z.shiftr_div_pow2 by lia. reflexivity.
  - cbn in H. destruct (N.leb _ 255) eqn:L; [discriminate|].
    apply N.leb_gt in L. lia.
Qed.

Lemma unpack_pack (ts adc : Z) (rest : list Byte.byte) :
  (0 <= ts < 2 ^ 32)%Z -> (0 <= adc < 2 ^ 16)%Z ->
  Segmentation.unpack_packet (pack_IH ts adc ++ rest)
  = option_map (cons (ts, adc)) (Segmentation.unpack_packet rest).
Proof.
  intros Ht Ha. cbn [pack_IH app Segmentation.unpack_packet].
  destruct (Segmentation.unpack_packet rest); cbn; [|reflexivity].
  unfold Segmentation.unpack_IH. rewrite !byte_at_Z. cbn.
  change (2 ^ (8 * Z.of_nat 0))%Z with 1%Z. rewrite !Z.div_1_r.
  change (2 ^ (8 * Z.of_nat 1))%Z with 256%Z.
  change (2 ^ (8 * Z.of_nat 2))%Z with 65536%Z.
  change (2 ^ (8 * Z.of_nat 3))%Z with 16777216%Z.
  change (2 ^ 32)%Z with 4294967296%Z in Ht. change (2 ^ 16)%Z with 65536%Z in Ha.
  assert (E1 : (ts mod 256 + 256 * ((ts / 256) mod 256) + 65536 * ((ts / 65536) mod 256)
                + 16777216 * ((ts / 16777216) mod 256))%Z = ts).
  { change 65536%Z with (256 * 256)%Z. change 16777216%Z with (256 * 256 * 256)%Z.
    rewrite <- !Z.div_div by lia.
    set (a := (ts / 256)%Z). set (b := (a / 256)%Z). set (c := (b / 256)%Z).
    assert (c < 256)%Z by (subst a b c; rewrite !Z.div_div by lia;
                           apply Z.div_lt_upper_bound; lia).
    assert (0 <= c)%Z by (subst a b c; apply Z.div_pos; [apply Z.div_pos; [apply Z.div_pos|]|]; lia).
    pose proof (Z.div_mod ts 256). pose proof (Z.div_mod a 256). pose proof (Z.div_mod b 256).
    rewrite (Z.mod_small c) by lia. lia. }
  assert (E2 : (adc mod 256 + 256 * ((adc / 256) mod 256))%Z = adc).
  { rewrite (Z.mod_small (adc / 256)).
    - pose proof (Z.div_mod adc 256). lia.
    - split; [apply Z.div_pos | apply Z.div_lt_upper_bound]; lia. }
  rewrite E1, E2. reflexivity.
Qed.

Lemma unpack_packed (rs : list (Z * Z)) :
  Forall in_range rs ->
  Segmentation.unpack_packet (concat (map packed rs)) = Some (map as_sample rs).
Proof.
  induction 1 as [|[adc ts] rs [Ha Ht] _ IH]; [reflexivity|].
  change (concat (map packed ((adc, ts) :: rs))) with (pack_IH ts adc ++ concat (map packed rs)).
  cbn [fst snd] in *. rewrite unpack_pack by assumption. rewrite IH. reflexivity.
Qed.

Lemma length_concat_packed (rs : list (Z * Z)) :
  length (concat (map packed rs)) = 6 * length rs.
Proof.
  induction rs as [|r rs IH]; [done|].
  change (concat (map packed (r :: rs))) with (packed r ++ concat (map packed rs)).
  rewrite length_app, IH. cbn. lia.
Qed.

Lemma frames_fuel_stable (f g : nat) (l : list (list Byte.byte)) :
  length l <= f -> length l <= g -> frames_fuel f l = frames_fuel g l.
Proof.
  revert g l. induction f as [|f IH]; intros g l Hf Hg.
  - destruct l; [destruct g; done | cbn in Hf; lia].
  - destruct l as [|x l']; [destruct g; done|].
    destruct g as [|g]; [cbn in Hg; lia|].
    cbn [frames_fuel]. f_equal. f_equal.
    apply IH; rewrite length_drop; cbn in *; lia.
Qed.

Lemma frames_nil : frames [] = [].
Proof. reflexivity. Qed.

Lemma frames_unfold (l : list (list Byte.byte)) :
  l <> [] ->
  frames l = MARKER ++ concat (take BUFFER_SIZE l) ++ frames (drop BUFFER_SIZE l).
Proof.
  intros Hl. unfold frames. destruct l as [|x l']; [done|].
  cbn [length frames_fuel]. f_equal. f_equal.
  apply frames_fuel_stable; rewrite length_drop; cbn; lia.
Qed.

Lemma frames_short (l : list (list Byte.byte)) :
  l <> [] -> length l <= BUFFER_SIZE -> frames l = MARKER ++ concat l.
Proof.
  intros Hl Hn. rewrite frames_unfold by done.
  rewrite take_ge by done. rewrite drop_ge by done. rewrite frames_nil, app_nil_r.
  reflexivity.
Qed.

Lemma frames_full (l r : list (list Byte.byte)) :
  length l = BUFFER_SIZE ->
  frames (l ++ r) = MARKER ++ concat l ++ frames r.
Proof.
  intros Hn. rewrite frames_unfold.
  - rewrite take_app_length' by done. rewrite drop_app_length' by done. reflexivity.
  - intros E. apply (f_equal length) in E. rewrite length_app in E. cbn in E.
    unfold BUFFER_SIZE in Hn. lia.
Qed.

Lemma length_pack_into (buf bs : list Byte.byte) (off : nat) :
  off + length bs <= length buf -> length (pack_into buf off bs) = length buf.
Proof.
  intros H. unfold pack_into. rewrite !length_app, length_take, length_drop. lia.
Qed.

Lemma take_pack_into (buf bs : list Byte.byte) (off : nat) :
  off + length bs <= length buf ->
  take (off + length bs) (pack_into buf off bs) = take off buf ++ bs.
Proof.
  intros H. unfold pack_into.
  rewrite take_app, take_take, length_take.
  replace (Nat.min (off + length bs) off) with off by lia.
  replace (off + length bs - Nat.min off (length buf)) with (length bs) by lia.
  rewrite take_app_length by lia. reflexivity.
Qed.

(** What holds between two timer callbacks while recording: the bytes
    packed since the last flush, [pending], fill the front of the buffer. *)
Definition buffer_inv (pending : list (list Byte.byte)) (st : pico) : Prop :=
  is_recording st = true /\ length (adc_buffer st) = BUFFER_SIZE * 6 /\
  buffer_index st = length pending /\ length pending < BUFFER_SIZE /\
  take (6 * length pending) (adc_buffer st) = concat pending /\
  Forall (fun b => length b = 6) pending.

Lemma length_concat6 (p : list (list Byte.byte)) :
  Forall (fun b => length b = 6) p -> length (concat p) = 6 * length p.
Proof. induction 1; cbn; [done|]. rewrite length_app. lia. Qed.

Lemma frames_fuel_concat (f : nat) (l : list (list Byte.byte)) :
  frames_fuel f l = concat (frame_list_fuel f l).
Proof.
  revert l. induction f as [|f IH]; intros l; [destruct l; done|].
  destruct l as [|x l']; [done|]. cbn [frames_fuel frame_list_fuel concat].
  rewrite IH, <- app_assoc. reflexivity.
Qed.

Lemma frames_concat (l : list (list Byte.byte)) : frames l = concat (frame_list l).
Proof. apply frames_fuel_concat. Qed.

Lemma deliver_ok (u : list usb_write) (fs : list (list Byte.byte)) :
  Forall (fun w => w = WriteOk) u -> deliver u fs = concat fs.
Proof.
  revert u. induction fs as [|f fs IH]; intros u Hu; [done|].
  destruct Hu as [|w u' -> Hu']; cbn [deliver flush_out fst snd concat];
    rewrite IH; [done| |done|done]. constructor.
Qed.

Lemma frame_list_fuel_stable (f g : nat) (l : list (list Byte.byte)) :
  length l <= f -> length l <= g -> frame_list_fuel f l = frame_list_fuel g l.
Proof.
  revert g l. induction f as [|f IH]; intros g l Hf Hg.
  - destruct l; [destruct g; done | cbn in Hf; lia].
  - destruct l as [|x l']; [destruct g; done|].
    destruct g as [|g]; [cbn in Hg; lia|].
    cbn [frame_list_fuel]. f_equal.
    apply IH; rewrite length_drop; cbn in *; lia.
Qed.

Lemma frame_list_unfold (l : list (list Byte.byte)) :
  l <> [] ->
  frame_list l = (MARKER ++ concat (take BUFFER_SIZE l)) :: frame_list (drop BUFFER_SIZE l).
Proof.
  intros Hl. unfold frame_list. destruct l as [|x l']; [done|].
  cbn [length frame_list_fuel]. f_equal.
  apply frame_list_fuel_stable; rewrite length_drop; cbn; lia.
Qed.

Lemma frame_list_short (l : list (list Byte.byte)) :
  l <> [] -> length l <= BUFFER_SIZE -> frame_list l = [MARKER ++ concat l].
Proof.
  intros Hl Hn. rewrite frame_list_unfold by done.
  rewrite take_ge by done. rewrite drop_ge by done. reflexivity.
Qed.

Lemma frame_list_full (l r : list (list Byte.byte)) :
  length l = BUFFER_SIZE ->
  frame_list (l ++ r) = (MARKER ++ concat l) :: frame_list r.
Proof.
  intros Hn. rewrite frame_list_unfold.
  - rewrite take_app_length' by done. rewrite drop_app_length' by done. reflexivity.
  - intros E. apply (f_equal length) in E. rewrite length_app in E. cbn in E.
    unfold BUFFER_SIZE in Hn. lia.
Qed.

Lemma stop_stream (p : list (list Byte.byte)) (st : pico) :
  buffer_inv p st ->
  stdout (stop_recording st) = stdout st ++ deliver (usb st) (frame_list p).
Proof.
  intros (Hr & Hl & Hi & Hn & Ht & Hf). unfold stop_recording. rewrite Hr.
  cbn [buffer_index]. destruct (Nat.ltb 0 (buffer_index st)) eqn:E.
  - apply Nat.ltb_lt in E. rewrite frame_list_short.
    + unfold flush_buffer. cbn [stdout buffer_index adc_buffer usb].
      replace (take (buffer_index st * 6) (adc_buffer st)) with (concat p)
        by (rewrite <- Ht; f_equal; lia).
      cbn [deliver]. destruct (flush_out (usb st) (MARKER ++ concat p)) as [out rest].
      cbn [stdout deliver fst snd]. rewrite app_nil_r. reflexivity.
    + intros ->. cbn in Hi. lia.
    + lia.
  - apply Nat.ltb_ge in E. destruct p; [|cbn in Hi; lia]. rewrite app_nil_r. reflexivity.
Qed.

Lemma callback_step (p : list (list Byte.byte)) (st : pico) (adc ts : Z) :
  buffer_inv p st ->
  let st' := sample_callback adc ts st in
  (length p + 1 < BUFFER_SIZE /\ buffer_inv (p ++ [pack_IH ts adc]) st' /\
   stdout st' = stdout st /\ usb st' = usb st) \/
  (length p + 1 = BUFFER_SIZE /\ buffer_inv [] st' /\
   stdout st' = stdout st ++ (flush_out (usb st) (MARKER ++ concat (p ++ [pack_IH ts adc]))).1 /\
   usb st' = (flush_out (usb st) (MARKER ++ concat (p ++ [pack_IH ts adc]))).2).
Proof.
  intros (Hr & Hl & Hi & Hn & Ht & Hf). cbn zeta.
  unfold sample_callback. rewrite Hi.
  destruct (Nat.ltb (length p) BUFFER_SIZE) eqn:E1; [|apply Nat.ltb_ge in E1; lia].
  cbn [buffer_index].
  assert (Hb : length p * 6 + length (pack_IH ts adc) <= length (adc_buffer st))
    by (rewrite Hl, length_pack_IH; unfold BUFFER_SIZE in *; lia).
  assert (Htk : take (6 * length (p ++ [pack_IH ts adc]))
                  (pack_into (adc_buffer st) (length p * 6) (pack_IH ts adc))
                = concat (p ++ [pack_IH ts adc])).
  { rewrite length_app. cbn [length]. replace (6 * (length p + 1)) with
      (length p * 6 + length (pack_IH ts adc)) by (rewrite length_pack_IH; lia).
    rewrite take_pack_into by assumption. rewrite concat_app. cbn [concat]. rewrite ?app_nil_r.
    rewrite <- Ht. f_equal. f_equal. lia. }
  destruct (Nat.leb BUFFER_SIZE (S (length p))) eqn:E2.
  - apply Nat.leb_le in E2. right. split; [unfold BUFFER_SIZE in *; lia|].
    unfold flush_buffer; cbn [is_recording adc_buffer buffer_index stdout usb].
    replace (take (S (length p) * 6) (pack_into (adc_buffer st) (length p * 6) (pack_IH ts adc)))
      with (concat (p ++ [pack_IH ts adc]))
      by (rewrite <- Htk; f_equal; rewrite length_app; cbn; lia).
    destruct (flush_out (usb st) (MARKER ++ concat (p ++ [pack_IH ts adc]))) as [out rest].
    cbn [is_recording adc_buffer buffer_index stdout usb fst snd].
    split; [|split; reflexivity].
    unfold buffer_inv; cbn [is_recording adc_buffer buffer_index].
    split; [exact Hr|]. split; [rewrite length_pack_into; assumption|].
    split; [reflexivity|]. split; [unfold BUFFER_SIZE; cbn; lia|].
    split; [reflexivity | constructor].
  - apply Nat.leb_gt in E2. left. split; [lia|]. split; [|split; reflexivity].
    unfold buffer_inv; cbn [is_recording adc_buffer buffer_index].
    split; [exact Hr|]. split; [rewrite length_pack_into; assumption|].
    split; [rewrite length_app; cbn; lia|]. split; [rewrite length_app; cbn; lia|].
    split; [replace (length (p ++ [pack_IH ts adc]) * 6) with (length p * 6 + 6) by
              (rewrite length_app; cbn; lia); exact Htk|].
    apply Forall_app; split; [assumption|]. constructor; [apply length_pack_IH | constructor].
Qed.

Lemma callbacks_stream (rs : list (Z * Z)) (p : list (list Byte.byte)) (st : pico) :
  buffer_inv p st ->
  stdout (stop_recording (fold_left (fun s r => sample_callback r.1 r.2 s) rs st))
  = stdout st ++ deliver (usb st) (frame_list (p ++ map packed rs)).
Proof.
  revert p st. induction rs as [|[adc ts] rs IH]; intros p st Hinv.
  - rewrite app_nil_r. apply stop_stream. assumption.
  - cbn [fold_left fst snd].
    destruct (callback_step p st adc ts Hinv) as [(Hn & Hi & Ho & Hu) | (Hn & Hi & Ho & Hu)].
    + rewrite (IH _ _ Hi), Ho, Hu, <- app_assoc. reflexivity.
    + rewrite (IH _ _ Hi), Ho, Hu. cbn [app].
      replace (p ++ map packed ((adc, ts) :: rs))
        with ((p ++ [pack_IH ts adc]) ++ map packed rs)
        by (rewrite <- app_assoc; reflexivity).
      rewrite frame_list_full.
      * cbn [deliver]. rewrite <- !app_assoc. reflexivity.
      * rewrite length_app. cbn. lia.
Qed.

Lemma session_stream_deliver (now : Z) (rs : list (Z * Z)) (st : pico) :
  is_recording st = false -> length (adc_buffer st) = BUFFER_SIZE * 6 ->
  stdout (session now rs st) = stdout st ++ deliver (usb st) (frame_list (map packed rs)).
Proof.
  intros Hr Hl. unfold session.
  rewrite (callbacks_stream rs [] (start_recording now st)).
  - unfold start_recording. rewrite Hr. reflexivity.
  - unfold start_recording. rewrite Hr. unfold buffer_inv; cbn.
    split; [done|]. split; [done|]. split; [done|]. split; [unfold BUFFER_SIZE; lia|].
    split; [done | constructor].
Qed.

Lemma session_stream_eq (now : Z) (rs : list (Z * Z)) (st : pico) :
  is_recording st = false -> length (adc_buffer st) = BUFFER_SIZE * 6 ->
  Forall (fun w => w = WriteOk) (usb st) ->
  stdout (session now rs st) = stdout st ++ frames (map packed rs).
Proof.
  intros Hr Hl Hu. rewrite session_stream_deliver by assumption.
  rewrite deliver_ok, frames_concat by assumption. reflexivity.
Qed.

Lemma frames_fuel_length (f : nat) (l : list (list Byte.byte)) :
  length l <= f -> length (concat l) <= length (frames_fuel f l).
Proof.
  revert l. induction f as [|f IH]; intros l Hl.
  - destruct l; [done | cbn in Hl; lia].
  - destruct l as [|x l']; [done|].
    cbn [frames_fuel]. rewrite <- (take_drop BUFFER_SIZE (x :: l')) at 1.
    rewrite concat_app, !length_app.
    pose proof (IH (drop BUFFER_SIZE (x :: l'))) as H.
    rewrite length_drop in H. cbn [length] in *. unfold BUFFER_SIZE in *. specialize (H ltac:(lia)). lia.
Qed.

Lemma frames_length (l : list (list Byte.byte)) : length (concat l) <= length (frames l).
Proof. apply frames_fuel_length. done. Qed.

End PicoFacts.

Module ReaderFacts.
Import Acquisition AcquisitionLoop Pico PicoModel PicoFacts SegmentationModel.

Lemma Pico_MARKER : Pico.MARKER = Acquisition.MARKER.
Proof. reflexivity. Qed.

Lemma read_packet_frame (data rest : list Byte.byte) :
  length data = PACKET_DATA_SIZE ->
  read_packet (Acquisition.MARKER ++ data ++ rest) = mk_read_result (Some data) [] rest 1.
Proof.
  intros Hd. unfold read_packet. cbn [read_packet_fuel]. unfold ser_read.
  rewrite take_app_length' by reflexivity. rewrite drop_app_length' by reflexivity.
  change (bytes_eqb Acquisition.MARKER Acquisition.MARKER) with true. cbn [negb].
  rewrite (take_app_length' data rest PACKET_DATA_SIZE (eq_sym Hd)), (drop_app_length' data rest PACKET_DATA_SIZE (eq_sym Hd)).
  rewrite Hd, Nat.eqb_refl. reflexivity.
Qed.

Lemma samples_of_cons (p : list Byte.byte) (ps : list (list Byte.byte)) :
  samples_of (p :: ps) = default [] (Segmentation.unpack_packet p) ++ samples_of ps.
Proof. reflexivity. Qed.

Lemma reads_frames (f : nat) (rs : list (Z * Z)) :
  Forall in_range rs -> length rs / BUFFER_SIZE <= f ->
  let K := BUFFER_SIZE * (length rs / BUFFER_SIZE) in
  samples_of (acquisition_reads f (frames (map packed rs))).1 = map as_sample (take K rs) /\
  Forall (fun p => length p = PACKET_DATA_SIZE) (acquisition_reads f (frames (map packed rs))).1 /\
  (acquisition_reads f (frames (map packed rs))).2 = frames (map packed (drop K rs)).
Proof.
  revert rs. induction f as [|f IH]; intros rs Hr Hf; cbn zeta.
  - assert (length rs / BUFFER_SIZE = 0) as -> by lia. cbn. done.
  - destruct (decide (length rs < BUFFER_SIZE)) as [Hs|Hs].
    + rewrite (Nat.div_small _ _ Hs). cbn [acquisition_reads].
      assert (Hlen : length (frames (map packed rs)) < PACKET_SIZE).
      { destruct rs as [|r rs']; [cbn; unfold PACKET_SIZE, PACKET_DATA_SIZE, Acquisition.BUFFER_SIZE; cbn; lia|].
        rewrite frames_short; [|done|rewrite length_map; lia].
        rewrite length_app, length_concat_packed. unfold PACKET_SIZE, PACKET_DATA_SIZE.
        cbn [length MARKER Acquisition.MARKER]. unfold BUFFER_SIZE, Acquisition.BUFFER_SIZE in *.
        cbn [length] in Hs. lia. }
      apply Nat.leb_gt in Hlen. rewrite Hlen. cbn. done.
    + apply Nat.nlt_ge in Hs.
      assert (Hfr : frames (map packed rs) = Pico.MARKER ++ concat (map packed (take BUFFER_SIZE rs))
                      ++ frames (map packed (drop BUFFER_SIZE rs))).
      { rewrite <- (take_drop BUFFER_SIZE rs) at 1. rewrite map_app, frames_full; [done|].
        rewrite length_map, length_take. lia. }
      rewrite Hfr.
      cbn [acquisition_reads].
      assert (Hd : length (concat (map packed (take BUFFER_SIZE rs))) = PACKET_DATA_SIZE).
      { rewrite length_concat_packed, length_take. unfold PACKET_DATA_SIZE.
        unfold BUFFER_SIZE, Acquisition.BUFFER_SIZE in *. lia. }
      assert (Hle : Nat.leb PACKET_SIZE
                      (length (Pico.MARKER ++ concat (map packed (take BUFFER_SIZE rs))
                               ++ frames (map packed (drop BUFFER_SIZE rs)))) = true).
      { apply Nat.leb_le. rewrite !length_app, Hd. unfold PACKET_SIZE. cbn. lia. }
      rewrite Hle, Pico_MARKER, read_packet_frame by assumption.
      cbn [rr_rest rr_packet].
      assert (Hr2 : Forall in_range (drop BUFFER_SIZE rs)) by (apply Forall_drop; assumption).
      assert (Hq : length rs / BUFFER_SIZE = S (length (drop BUFFER_SIZE rs) / BUFFER_SIZE)).
      { rewrite length_drop. replace (length rs) with (1 * BUFFER_SIZE + (length rs - BUFFER_SIZE))
          at 1 by (unfold BUFFER_SIZE in *; lia).
        rewrite Nat.div_add_l by (unfold BUFFER_SIZE; lia). reflexivity. }
      destruct (IH (drop BUFFER_SIZE rs) Hr2 ltac:(lia)) as (H1 & H2 & H3). cbn zeta in H1, H2, H3.
      destruct (acquisition_reads f (frames (map packed (drop BUFFER_SIZE rs)))) as [ps rest].
      cbn [fst snd] in *.
      assert (Hne : exists b0 bs, concat (map packed (take BUFFER_SIZE rs)) = b0 :: bs).
      { destruct (concat (map packed (take BUFFER_SIZE rs))); [cbn in Hd; discriminate | eauto]. }
      destruct Hne as (b0 & bs & Ec). rewrite Ec. cbn [fst snd]. rewrite <- Ec. split; [|split].
      * rewrite samples_of_cons, H1, unpack_packed by (apply Forall_take; assumption).
        cbn [default]. unfold id. rewrite <- map_app. f_equal. rewrite Hq.
        replace (BUFFER_SIZE * S (length (drop BUFFER_SIZE rs) / BUFFER_SIZE))
          with (BUFFER_SIZE + BUFFER_SIZE * (length (drop BUFFER_SIZE rs) / BUFFER_SIZE)) by lia.
        rewrite <- take_take_drop. reflexivity.
      * constructor; [exact Hd | assumption].
      * rewrite H3, Hq, drop_drop. f_equal. f_equal. f_equal. lia.
Qed.

Lemma bytes_eqb_eq (a b : list Byte.byte) : bytes_eqb a b = true -> a = b.
Proof.
  revert b. induction a as [|x a IH]; intros [|y b]; cbn; try discriminate; [done|].
  intros H. apply andb_true_iff in H as [H1 H2].
  apply Byte.byte_dec_bl in H1. rewrite H1, (IH b H2). reflexivity.
Qed.

Lemma find_marker_loop_spec (buf : list Byte.byte) (s s' : stream) (b : bool) :
  find_marker_loop buf s = (b, s') -> length buf <= 1000 ->
  exists pre, s = pre ++ s' /\ length buf + length pre <= 1001 /\
    (b = false -> s' = [] \/ length buf + length pre = 1001) /\
    (b = true -> exists q, buf ++ pre = q ++ Acquisition.MARKER).
Proof.
  revert buf. induction s as [|x s IH]; intros buf H Hb; cbn [find_marker_loop] in H.
  - destruct (bytes_eqb (last_marker_len buf) Acquisition.MARKER) eqn:E;
      injection H as <- <-; exists []; (split; [done|]); (split; [cbn; lia|]);
      (split; [intros; first [discriminate | left; done] |]).
    + intros _. exists (take (length buf - length Acquisition.MARKER) buf).
      apply bytes_eqb_eq in E. unfold last_marker_len in E. rewrite app_nil_r.
      transitivity (take (length buf - length Acquisition.MARKER) buf
                    ++ drop (length buf - length Acquisition.MARKER) buf);
        [symmetry; apply take_drop | rewrite E; reflexivity].
    + intros Hf; discriminate Hf.
  - destruct (bytes_eqb (last_marker_len buf) Acquisition.MARKER) eqn:E.
    + injection H as <- <-. exists []. split; [done|]. split; [cbn; lia|].
      split; [discriminate|]. intros _.
      exists (take (length buf - length Acquisition.MARKER) buf).
      apply bytes_eqb_eq in E. unfold last_marker_len in E. rewrite app_nil_r.
      transitivity (take (length buf - length Acquisition.MARKER) buf
                    ++ drop (length buf - length Acquisition.MARKER) buf);
        [symmetry; apply take_drop | rewrite E; reflexivity].
    + destruct (Nat.ltb 1000 (length (buf ++ [x]))) eqn:L.
      * injection H as <- <-. apply Nat.ltb_lt in L. rewrite length_app in L. cbn in L.
        exists [x]. split; [done|]. split; [cbn; lia|]. split; [intros _; right; cbn; lia|].
        discriminate.
      * apply Nat.ltb_ge in L. rewrite length_app in L. cbn in L.
        destruct (IH (buf ++ [x]) H) as (pre & Hs & Hl & Hf & Ht); [rewrite length_app; cbn; lia|].
        rewrite length_app in Hl, Hf. cbn in Hl, Hf.
        exists (x :: pre). split; [rewrite Hs; done|]. split; [cbn; lia|].
        split; [intros Hb'; destruct (Hf Hb'); [left | right; cbn]; lia || assumption|].
        intros Hb'. destruct (Ht Hb') as [q Hq]. exists q. rewrite <- Hq, <- app_assoc. done.
Qed.

Lemma find_marker_fill_spec (n : nat) (buf : list Byte.byte) (s s' : stream) (b : bool) :
  find_marker_fill n buf s = (b, s') -> length buf + n <= 1000 ->
  exists pre, s = pre ++ s' /\ length buf + length pre <= 1001 /\
    (b = false -> s' = [] \/ length buf + length pre = 1001) /\
    (b = true -> exists q, buf ++ pre = q ++ Acquisition.MARKER).
Proof.
  revert buf s. induction n as [|n IH]; intros buf s H Hb; cbn [find_marker_fill] in H.
  - apply find_marker_loop_spec; [assumption | lia].
  - destruct s as [|x s].
    + injection H as <- <-. exists []. split; [done|]. split; [cbn; lia|].
      split; [intros _; left; done | discriminate].
    + destruct (IH (buf ++ [x]) s H) as (pre & Hs & Hl & Hf & Ht); [rewrite length_app; cbn; lia|].
      rewrite length_app in Hl, Hf. cbn in Hl, Hf.
      exists (x :: pre). split; [rewrite Hs; done|]. split; [cbn; lia|].
      split; [intros Hb'; destruct (Hf Hb'); [left | right; cbn]; lia || assumption|].
      intros Hb'. destruct (Ht Hb') as [q Hq]. exists q. rewrite <- Hq, <- app_assoc. done.
Qed.

Lemma find_marker_spec (s s' : stream) (b : bool) :
  find_marker s = (b, s') ->
  exists pre, s = pre ++ s' /\ length pre <= 1001 /\
    (b = false -> s' = [] \/ length pre = 1001) /\
    (b = true -> exists q, pre = q ++ Acquisition.MARKER).
Proof.
  intros H. destruct (find_marker_fill_spec _ _ _ _ _ H) as (pre & H1 & H2 & H3 & H4);
    [cbn; lia|].
  exists pre. cbn [length app] in *. auto.
Qed.

Lemma read_packet_fuel_sound (f : nat) (s : stream) (d : list Byte.byte) :
  rr_packet (read_packet_fuel f s) = Some d ->
  length d = PACKET_DATA_SIZE /\
  exists pre, s = pre ++ Acquisition.MARKER ++ d ++ rr_rest (read_packet_fuel f s).
Proof.
  revert s. induction f as [|f IH]; intros s Hd; cbn [read_packet_fuel] in *; unfold ser_read in *;
    destruct (bytes_eqb (take (length Acquisition.MARKER) s) Acquisition.MARKER) eqn:Em;
    cbn [negb] in *.
  1,3: destruct (Nat.eqb (length (take PACKET_DATA_SIZE (drop (length Acquisition.MARKER) s)))
                   PACKET_DATA_SIZE) eqn:Ed; cbn [negb rr_packet rr_rest] in *; [|discriminate];
       injection Hd as <-; apply Nat.eqb_eq in Ed; split; [assumption|];
       exists []; apply bytes_eqb_eq in Em; cbn [app];
       transitivity (take (length Acquisition.MARKER) s ++ drop (length Acquisition.MARKER) s);
       [symmetry; apply take_drop | rewrite Em, take_drop; reflexivity].
  - destruct (find_marker _) as [[|] s2]; cbn in Hd; discriminate.
  - destruct (find_marker (drop (length Acquisition.MARKER) s)) as [[|] s2] eqn:Ef;
      cbn [rr_packet rr_rest] in *; [|discriminate].
    destruct (IH s2 Hd) as [Hl [pre' Hs2]]. split; [assumption|].
    destruct (find_marker_spec _ _ _ Ef) as (pre & Hs & _).
    exists (take (length Acquisition.MARKER) s ++ pre ++ pre').
    rewrite <- (take_drop (length Acquisition.MARKER) s) at 1.
    rewrite Hs. rewrite Hs2 at 1. rewrite <- !app_assoc. reflexivity.
Qed.

Lemma read_packet_short (d : list Byte.byte) :
  length d < PACKET_DATA_SIZE ->
  read_packet (Acquisition.MARKER ++ d) = mk_read_result None [IncompletePacket (length d)] [] 1.
Proof.
  intros Hd. unfold read_packet. cbn [read_packet_fuel]. unfold ser_read.
  rewrite take_app_length' by reflexivity. rewrite drop_app_length' by reflexivity.
  change (bytes_eqb Acquisition.MARKER Acquisition.MARKER) with true. cbn [negb].
  rewrite take_ge, drop_ge by lia.
  destruct (Nat.eqb_spec (length d) PACKET_DATA_SIZE); [lia|]. reflexivity.
Qed.

End ReaderFacts.

Module ControlFacts.
Import AcquisitionControl.

Lemma toggle_step (e : ser_env) (st : acq_state) :
  exiting st = false ->
  exiting (toggle_recording e st) = false /\
  recording (toggle_recording e st) = negb (recording st) /\
  inf_control_queue (toggle_recording e st) =
    inf_control_queue st ++ (if recording st then ["STOP_SESSION"] else []).
Proof.
  intros He. unfold toggle_recording. rewrite He.
  destruct (recording st) eqn:Er; cbn [negb].
  - unfold stop_acquisition. rewrite Er. cbn. auto.
  - unfold start_acquisition. rewrite Er. rewrite app_nil_r.
    destruct (negb (write_ok e)); cbn; auto.
Qed.

Lemma toggles_count (envs : list ser_env) (st : acq_state) :
  exiting st = false ->
  let st' := toggles envs st in
  exiting st' = false /\
  recording st' = xorb (recording st) (Nat.odd (length envs)) /\
  inf_control_queue st' =
    inf_control_queue st ++ repeat "STOP_SESSION" ((length envs + Nat.b2n (recording st)) / 2).
Proof.
  revert st. induction envs as [|e envs IH]; intros st He; cbn zeta.
  - cbn [toggles fold_left length]. rewrite xorb_false_r.
    split; [done|]. split; [done|]. destruct (recording st); cbn; rewrite app_nil_r; reflexivity.
  - unfold toggles. cbn [fold_left]. fold (toggles envs (toggle_recording e st)).
    destruct (toggle_step e st He) as (H1 & H2 & H3).
    destruct (IH _ H1) as (I1 & I2 & I3). split; [exact I1|]. split.
    + rewrite I2, H2. cbn [length]. rewrite Nat.odd_succ, <- Nat.negb_odd.
      destruct (recording st), (Nat.odd (length envs)); reflexivity.
    + rewrite I3, H3, H2, <- app_assoc. f_equal. cbn [length].
      destruct (recording st); cbn [negb Nat.b2n app].
      * replace (length envs + 0) with (length envs) by lia.
        replace (S (length envs) + 1) with (1 * 2 + length envs) by lia.
        rewrite Nat.div_add_l by lia. reflexivity.
      * replace (S (length envs) + 0) with (length envs + 1) by lia. reflexivity.
Qed.

Lemma cleanup_spec (env : ser_env) (envs : list ser_env) (st : acq_state) :
  let st1 := cleanup env st in
  recording st1 = false /\ exiting st1 = true /\ ser_is_open st1 = false /\
  inf_control_queue st1 =
    inf_control_queue st ++ (if recording st then ["STOP_SESSION"] else []) /\
  toggles envs st1 = st1.
Proof.
  cbn zeta. assert (Hx : exiting (cleanup env st) = true).
  { unfold cleanup. destruct (recording st); reflexivity. }
  split; [|split; [exact Hx|split; [|split]]].
  - unfold cleanup. destruct (recording st); reflexivity.
  - unfold cleanup. destruct (recording st); reflexivity.
  - unfold cleanup. destruct (recording st); cbn; [reflexivity | rewrite app_nil_r; reflexivity].
  - induction envs as [|e envs IH]; [reflexivity|].
    unfold toggles in *. cbn [fold_left].
    replace (toggle_recording e (cleanup env st)) with (cleanup env st); [exact IH|].
    unfold toggle_recording. rewrite Hx. reflexivity.
Qed.

Lemma failed_start_step (env env' : ser_env) (st : acq_state) :
  write_ok env = false -> exiting st = false -> recording st = false ->
  let st1 := toggle_recording env st in
  recording st1 = true /\ ser_written st1 = ser_written st /\
  ctl_status st1 = ctl_status st ++
    (if Nat.ltb 0 (bytes_before env) then [ClearedBytes (bytes_before env)] else []) /\
  inf_control_queue (toggle_recording env' st1) = inf_control_queue st ++ ["STOP_SESSION"].
Proof.
  intros Hw He Hr. cbn zeta. unfold toggle_recording at 1 2 3 5. rewrite He, Hr. cbn [negb].
  unfold start_acquisition. rewrite Hr, Hw. cbn [negb].
  split; [reflexivity|]. split; [reflexivity|]. split.
  - destruct (Nat.ltb 0 _); cbn; [reflexivity | rewrite app_nil_r; reflexivity].
  - unfold toggle_recording. cbn [exiting recording negb]. rewrite He.
    unfold stop_acquisition. reflexivity.
Qed.

End ControlFacts.

Module InferenceModelFacts.
Import Filtering Inference InferenceModel InferenceFacts.

Lemma lookup_writerows (p q : string) (rs : list row) (fs : gmap string (list row)) :
  writerows p rs fs !! q = if decide (p = q) then Some (default [] (fs !! p) ++ rs) else fs !! q.
Proof.
  unfold writerows. destruct (decide (p = q)) as [<-|Hne].
  - apply lookup_insert_eq.
  - apply lookup_insert_ne. exact Hne.
Qed.

Lemma lookup_open_w (p q : string) (fs : gmap string (list row)) :
  open_w p fs !! q = if decide (p = q) then Some [] else fs !! q.
Proof.
  unfold open_w. destruct (decide (p = q)) as [<-|Hne].
  - apply lookup_insert_eq.
  - apply lookup_insert_ne. exact Hne.
Qed.

Lemma process_segment_active (interp : option interpreter) (seg : processed) (st : inf_state)
    (name : string) (rows : list row) :
  signal_writer st = Some (signal_path name) ->
  filtered_writer st = Some (filtered_path name) ->
  annotation_writer st = Some (annotation_path name) ->
  files st !! annotation_path name = Some (HeaderRow rhythm_header :: rows) ->
  let st' := process_segment interp seg st in
  signal_writer st' = signal_writer st /\ filtered_writer st' = filtered_writer st /\
  annotation_writer st' = annotation_writer st /\ current_session st' = current_session st /\
  session_active st' = session_active st /\ inference_count st' = S (inference_count st) /\
  files st' !! annotation_path name =
    Some (HeaderRow rhythm_header :: rows ++
          [rhythm_row seg (run_inference interp (processed_signal seg))]).
Proof.
  intros Hs Hf Ha Hr. cbn zeta. destruct (session_paths_distinct name) as (D1 & D2 & D3).
  unfold process_segment, write_rhythm_annotation, write_signal_samples.
  rewrite Hs, Hf. cbn [signal_writer filtered_writer annotation_writer current_session
    session_active inference_count files]. rewrite Ha. cbn [files].
  split; [done|]. split; [done|]. split; [done|]. split; [done|]. split; [done|].
  split; [done|].
  rewrite lookup_writerows. rewrite decide_True by reflexivity.
  rewrite !lookup_writerows. rewrite !decide_False by assumption. rewrite Hr. reflexivity.
Qed.

Lemma start_session_inv (name : string) (st : inf_state) :
  inference_count st = 0 ->
  let st' := set_session_active true (start_session name st) in
  session_active st' = true /\ current_session st' = Some name /\
  signal_writer st' = Some (signal_path name) /\
  filtered_writer st' = Some (filtered_path name) /\
  annotation_writer st' = Some (annotation_path name) /\
  files st' !! annotation_path name = Some [HeaderRow rhythm_header] /\
  inference_count st' = 0.
Proof.
  intros Hc. cbn. split; [done|]. split; [done|]. split; [done|]. split; [done|].
  split; [done|]. split; [|exact Hc].
  rewrite lookup_writerows, decide_True by reflexivity.
  rewrite lookup_open_w, decide_True by reflexivity. reflexivity.
Qed.

Lemma inference_step_inv (interp : option interpreter) (m : option string)
    (seg : option processed) (ts : string) (st : inf_state) :
  session_inv st -> session_inv (inference_step interp m seg ts st).
Proof.
  intros Hinv. unfold inference_step.
  set (st1 := match m with
              | Some m0 => if String.eqb m0 "STOP_SESSION" && session_active st
                           then set_session_active false (stop_session st) else st
              | None => st end).
  assert (H1 : session_inv st1).
  { subst st1. destruct m as [m0|]; [|exact Hinv].
    destruct (String.eqb m0 "STOP_SESSION" && session_active st); [|exact Hinv].
    right. cbn. repeat split. }
  clearbody st1. clear Hinv.
  destruct seg as [seg|]; [|exact H1].
  destruct (session_active st1) eqn:Ea.
  - destruct H1 as [(_ & name & rows & Hc & Hs & Hf & Ha & Hr & Hrow & Hn) | (Hf & _)];
      [|congruence].
    destruct (process_segment_active interp seg st1 name rows Hs Hf Ha Hr)
      as (P1 & P2 & P3 & P4 & P5 & P6 & P7).
    left. split; [congruence|]. exists name, (rows ++ [rhythm_row seg (run_inference interp (processed_signal seg))]).
    split; [congruence|]. split; [congruence|]. split; [congruence|]. split; [congruence|].
    split; [exact P7|]. split.
    + apply Forall_app. split; [exact Hrow|]. constructor; [reflexivity|constructor].
    + rewrite length_app, P6, Hn. cbn. lia.
  - destruct H1 as [(Ht & _) | (_ & _ & _ & _ & _ & Hc & _)]; [congruence|].
    set (name := String.append "ecg_" ts).
    destruct (start_session_inv name st1 Hc) as (S1 & S2 & S3 & S4 & S5 & S6 & S7).
    destruct (process_segment_active interp seg _ name [] S3 S4 S5 S6)
      as (P1 & P2 & P3 & P4 & P5 & P6 & P7).
    left. split; [congruence|]. exists name, [rhythm_row seg (run_inference interp (processed_signal seg))].
    split; [congruence|]. split; [congruence|]. split; [congruence|]. split; [congruence|].
    split; [exact P7|]. split.
    + constructor; [reflexivity|constructor].
    + rewrite P6, S7. reflexivity.
Qed.

Lemma inference_run_inv (interp : option interpreter)
    (turns : list (option string * option processed * string)) (st : inf_state) :
  session_inv st -> session_inv (inference_run interp turns st).
Proof.
  revert st. induction turns as [|[[m seg] ts] turns IH]; intros st H; [exact H|].
  unfold inference_run. cbn [fold_left fst snd]. apply IH. apply inference_step_inv. exact H.
Qed.

Lemma init_session_inv : session_inv init_inf_state.
Proof. right. cbn. repeat split. Qed.

End InferenceModelFacts.

Module SegFacts2.
Import Segmentation SegmentationModel SegmentationFacts.

Lemma byte_Z_range (b : Byte.byte) : (0 <= byte_Z b < 256)%Z.
Proof. unfold byte_Z. pose proof (Byte.to_N_bounded b). lia. Qed.

Definition sample_in_range (x : sample) : Prop :=
  (0 <= x.1 < 2 ^ 32)%Z /\ (0 <= x.2 < 2 ^ 16)%Z.

Lemma unpack_IH_range b0 b1 b2 b3 b4 b5 : sample_in_range (unpack_IH b0 b1 b2 b3 b4 b5).
Proof.
  unfold sample_in_range, unpack_IH. cbn [fst snd].
  pose proof (byte_Z_range b0). pose proof (byte_Z_range b1). pose proof (byte_Z_range b2).
  pose proof (byte_Z_range b3). pose proof (byte_Z_range b4). pose proof (byte_Z_range b5).
  change (2 ^ 32)%Z with 4294967296%Z. change (2 ^ 16)%Z with 65536%Z. lia.
Qed.

Lemma unpack_packet_spec (p : list Byte.byte) :
  match unpack_packet p with
  | Some l => length p = 6 * length l /\ Forall sample_in_range l
  | None => length p mod 6 <> 0
  end.
Proof.
  induction p as [p IH] using (induction_ltof1 _ (@length _)). unfold ltof in IH.
  destruct p as [|b0 [|b1 [|b2 [|b3 [|b4 [|b5 rest]]]]]]; cbn [unpack_packet length];
    try (cbn; split; [reflexivity | constructor]); try (cbn; lia).
  specialize (IH rest ltac:(cbn; lia)).
  destruct (unpack_packet rest) as [l|]; cbn [length].
  - destruct IH as [IH1 IH2]. split; [lia|]. constructor; [apply unpack_IH_range | exact IH2].
  - intros H. apply IH. replace (S (S (S (S (S (S (length rest)))))))
      with (length rest + 1 * 6) in H by lia. rewrite Nat.Div0.mod_add in H. exact H.
Qed.

Lemma on_packet_malformed (st : seg_state) (p : list Byte.byte) :
  length p mod 6 <> 0 -> on_packet st p = (st, []).
Proof.
  intros H. pose proof (unpack_packet_spec p) as Hs. unfold on_packet.
  destruct (unpack_packet p) as [l|]; [|reflexivity].
  destruct Hs as [Hl _]. exfalso. apply H. rewrite Hl, Nat.mul_comm. apply Nat.Div0.mod_mul.
Qed.

Lemma on_packet_at_most_one (st : seg_state) (p : list Byte.byte) :
  length (snd (on_packet st p)) <= 1.
Proof.
  unfold on_packet. destruct (unpack_packet p); [|cbn; lia].
  destruct (Nat.leb _ _); [|cbn; lia]. destruct (create_segment _) as [[? ?]|]; cbn; lia.
Qed.

Lemma on_packet_bounded (st : seg_state) (p : list Byte.byte) :
  length (segment_buffer st) < SEGMENT_SIZE + OVERLAP_SIZE ->
  length p <= 6 * SEGMENT_SIZE ->
  length (segment_buffer (fst (on_packet st p))) < SEGMENT_SIZE + OVERLAP_SIZE.
Proof.
  intros Hb Hp. pose proof (unpack_packet_spec p) as Hs. unfold on_packet.
  destruct (unpack_packet p) as [l|]; [|exact Hb]. destruct Hs as [Hl _].
  cbn zeta. cbn [segment_buffer].
  destruct (Nat.leb (SEGMENT_SIZE + OVERLAP_SIZE)
              (length (segment_buffer st ++ l))) eqn:Ec; cbn [segment_buffer].
  - apply Nat.leb_le in Ec. unfold create_segment. cbn [segment_buffer overlap_buffer segment_count].
    destruct (build_segment_spec (segment_count st) (overlap_buffer st)
                (take (SEGMENT_SIZE + OVERLAP_SIZE) (segment_buffer st ++ l)))
      as (seg & Hseg & _).
    { rewrite length_take. unfold SEGMENT_SIZE, OVERLAP_SIZE in *. lia. }
    rewrite Hseg. simpl fst. simpl segment_buffer. rewrite length_drop, length_app.
    rewrite length_app in Ec. unfold SEGMENT_SIZE, OVERLAP_SIZE in *. lia.
  - apply Nat.leb_gt in Ec. exact Ec.
Qed.

Lemma run_packets_bounded (ps : list (list Byte.byte)) :
  Forall (fun p => length p <= 6 * SEGMENT_SIZE) ps ->
  length (segment_buffer (fst (run_packets init_seg_state ps))) < SEGMENT_SIZE + OVERLAP_SIZE.
Proof.
  induction ps as [|p ps IH] using rev_ind; intros H.
  - cbn. unfold SEGMENT_SIZE, OVERLAP_SIZE. lia.
  - apply Forall_app in H as [H1 H2]. inversion H2; subst.
    rewrite run_packets_snoc. cbn [fst]. apply on_packet_bounded; auto.
Qed.

Lemma concat_windows (all : list sample) (E : nat) :
  concat (map (fun k => map fst (take SEGMENT_SIZE (drop (SEGMENT_SIZE * k) all))) (seq 0 E))
  = map fst (take (SEGMENT_SIZE * E) all).
Proof.
  induction E as [|E IH]; [reflexivity|].
  rewrite seq_S, map_app, concat_app, IH. cbn [map concat]. rewrite app_nil_r, <- map_app.
  f_equal. replace (SEGMENT_SIZE * S E) with (SEGMENT_SIZE * E + SEGMENT_SIZE) by lia.
  rewrite take_take_drop. reflexivity.
Qed.

Lemma Forall2_concat_map {A B C} (f : A -> list C) (g : B -> list C) (l1 : list A) (l2 : list B) :
  Forall2 (fun a b => f a = g b) l1 l2 -> concat (map f l1) = concat (map g l2).
Proof. induction 1; cbn; [reflexivity|]. congruence. Qed.

Lemma emitted_cores (ps : list (list Byte.byte)) :
  Forall (fun p => length p = Acquisition.PACKET_DATA_SIZE) ps ->
  let out := snd (run_packets init_seg_state ps) in
  concat (map timestamp_ms out) = map fst (take (SEGMENT_SIZE * length out) (samples_of ps)).
Proof.
  intros Hv. cbn zeta. pose proof (emitted_windows ps Hv) as Hw.
  rewrite <- concat_windows. apply Forall2_concat_map.
  eapply Forall2_impl; [exact Hw|]. intros seg k Hp. apply Hp.
Qed.

End SegFacts2.

Module FloatFacts.
Import Filtering.

Lemma is_nan_spec (x : float) : PrimFloat.is_nan x = true <-> Prim2SF x = S754_nan.
Proof.
  unfold PrimFloat.is_nan. rewrite FloatAxioms.eqb_spec. unfold SpecFloat.SFeqb.
  destruct (Prim2SF x) as [s|s| |s m e]; cbn; split; intros H; try discriminate; try reflexivity.
  - destruct s; discriminate.
  - rewrite Z.compare_refl in H. destruct s; rewrite Pos.compare_cont_refl in H; discriminate.
Qed.

Lemma nan_sub_r (x y : float) : PrimFloat.is_nan y = true -> PrimFloat.is_nan (x - y) = true.
Proof.
  rewrite !is_nan_spec, FloatAxioms.sub_spec. intros ->.
  destruct (Prim2SF x) as [[]|[]| |[] m e]; reflexivity.
Qed.

Lemma nan_div_l (x y : float) : PrimFloat.is_nan x = true -> PrimFloat.is_nan (x / y) = true.
Proof.
  rewrite !is_nan_spec, FloatAxioms.div_spec. intros ->. reflexivity.
Qed.

Lemma fold_minimum_nan (r : list float) (a : float) :
  PrimFloat.is_nan a = true \/ (exists x, In x r /\ PrimFloat.is_nan x = true) ->
  PrimFloat.is_nan (fold_left np_minimum r a) = true.
Proof.
  revert a. induction r as [|b r IH]; intros a H; cbn [fold_left].
  - destruct H as [H | (x & [] & _)]. exact H.
  - apply IH. unfold np_minimum.
    destruct (PrimFloat.is_nan a) eqn:Ea; [left; exact Ea|].
    destruct (PrimFloat.is_nan b) eqn:Eb; [left; exact Eb|].
    right. destruct H as [H | (x & [<-|Hx] & Hn)]; [discriminate | congruence | eauto].
Qed.

Lemma normalize_nan (xs : list float) :
  (exists x, In x xs /\ PrimFloat.is_nan x = true) ->
  exists ys, normalize_segment xs = Some ys /\ length ys = length xs /\
             Forall (fun y => PrimFloat.is_nan y = true) ys.
Proof.
  intros Hx. destruct xs as [|x0 r]; [destruct Hx as (x & [] & _)|].
  unfold normalize_segment, np_min, np_max. cbn [mbind option_bind].
  eexists. split; [reflexivity|]. split; [apply length_map|].
  apply List.Forall_forall. intros y Hy. apply in_map_iff in Hy as (x & <- & _).
  apply nan_div_l, nan_sub_r, fold_minimum_nan.
  destruct Hx as (x' & [<-|Hx'] & Hn); [left; exact Hn | right; eauto].
Qed.

End FloatFacts.

Module FloatConst.
Import Filtering.








End FloatConst.

Module WindowFacts.
Import Segmentation SegmentationModel SegmentationFacts Filtering Inference.

Lemma filtering_pipeline_length (lib : scipy_signal) (signal : list Z) (fe : list float) :
  (forall b a x y, filtfilt lib b a x = Some y -> length y = length x) ->
  apply_filtering_pipeline lib signal = Some fe -> length fe = length signal.
Proof.
  intros Hf. unfold apply_filtering_pipeline, apply_notch_filter, apply_fir_lowpass,
    apply_iir_highpass.
  destruct (iirnotch lib _ _ _) as [[b1 a1]|]; cbn [mbind option_bind]; [|discriminate].
  destruct (filtfilt lib b1 a1 _) as [f1|] eqn:E1; cbn [mbind option_bind]; [|discriminate].
  destruct (remez lib _ _ _ _ _) as [b2|]; cbn [mbind option_bind]; [|discriminate].
  destruct (filtfilt lib b2 [1%float] f1) as [f2|] eqn:E2; cbn [mbind option_bind]; [|discriminate].
  destruct (ellipord lib _ _ _ _) as [[n wn]|]; cbn [mbind option_bind]; [|discriminate].
  destruct (ellip_high lib _ _ _ _) as [[b3 a3]|]; cbn [mbind option_bind]; [|discriminate].
  intros E3. apply Hf in E1, E2, E3. rewrite length_map in E1. congruence.
Qed.

Lemma window_lengths (ps : list (list Byte.byte)) (seg : segment) :
  Forall (fun p => length p = Acquisition.PACKET_DATA_SIZE) ps ->
  In seg (snd (run_packets init_seg_state ps)) ->
  length (timestamp_ms seg) = SEGMENT_SIZE /\
  core_end_idx seg = core_start_idx seg + SEGMENT_SIZE /\
  core_end_idx seg <= length (extended_adc_value seg).
Proof.
  intros Hv Hin. apply In_nth_error in Hin as [n Hn].
  destruct (Forall2_nth_error _ _ _ _ _ (emitted_windows ps Hv) Hn) as (k & Hk & Hp).
  destruct Hp as (Hb & _ & Ht & _ & Ha & Hcs & Hce & _). unfold sample in Hb.
  split; [|split; [exact Hce|]].
  - rewrite Ht, length_map, length_take, length_drop. apply Nat.min_l. unfold sample in *. lia.
  - rewrite Hce, Hcs, Ha, length_map, length_app, length_take, length_drop.
    rewrite length_overlap_at.
    + destruct (Nat.eqb k 0); unfold sample in *; lia.
    + destruct k; [left; reflexivity | right; unfold sample in *; lia].
Qed.

Lemma window_processed_lengths (lib : scipy_signal) (ps : list (list Byte.byte)) (seg : segment) :
  Forall (fun p => length p = Acquisition.PACKET_DATA_SIZE) ps ->
  In seg (snd (run_packets init_seg_state ps)) ->
  (forall b a x y, filtfilt lib b a x = Some y -> length y = length x) ->
  match Filtering.process_segment lib seg with
  | Some p =>
      length (p_timestamp_ms p) = SEGMENT_SIZE /\ length (raw_signal p) = SEGMENT_SIZE /\
      length (filtered_signal p) = SEGMENT_SIZE /\
      reshape_1_1024_1 (processed_signal p) = Some (processed_signal p)
  | None => True
  end.
Proof.
  intros Hv Hin Hf. destruct (window_lengths ps seg Hv Hin) as (Ht & Hce & Hle).
  unfold Filtering.process_segment.
  destruct (apply_filtering_pipeline lib (extended_adc_value seg)) as [fe|] eqn:Ep;
    cbn [mbind option_bind]; [|exact I].
  apply filtering_pipeline_length in Ep; [|exact Hf].
  unfold normalize_segment, np_min, np_max.
  assert (Hlen : length (py_slice fe (core_start_idx seg) (core_end_idx seg)) = SEGMENT_SIZE).
  { unfold py_slice. rewrite length_take, length_drop. lia. }
  destruct (py_slice fe (core_start_idx seg) (core_end_idx seg)) as [|x0 r] eqn:Es;
    [cbn in Hlen; discriminate|].
  cbn [mbind option_bind p_timestamp_ms raw_signal filtered_signal processed_signal].
  split; [exact Ht|]. split.
  - unfold py_slice. rewrite length_take, length_drop. lia.
  - split; [exact Hlen|]. unfold reshape_1_1024_1. rewrite length_map. rewrite Hlen. reflexivity.
Qed.

Lemma run_inference_label (interp : option interpreter) (xs : list float) :
  RHYTHM_CLASSES !! pred_class (run_inference interp xs) = Some (pred_label (run_inference interp xs)).
Proof.
  unfold run_inference. destruct interp as [it|]; [|reflexivity].
  destruct (invoke_model it xs) as [out|]; cbn [mbind option_bind default]; [|reflexivity].
  destruct (np_argmax out) as [c|]; cbn [mbind option_bind default]; [|reflexivity].
  destruct (np_max out) as [m|]; cbn [mbind option_bind default]; [|reflexivity].
  destruct (RHYTHM_CLASSES !! c) as [l|] eqn:E; cbn [mbind option_bind default]; [exact E|reflexivity].
Qed.

End WindowFacts.

Module Claims.
Import Acquisition Segmentation SegmentationModel Inputs AcquisitionFacts
       SegmentationFacts FilteringFacts InferenceFacts.

(** C1 (the frame reader after resynchronization).  On the stream of six
    noise bytes, the marker and a valid 1536-byte payload, [_read_packet]
    finds the marker in [_find_marker] (which consumes it) and then calls
    itself, which reads the first six payload bytes as a second marker:
    no packet is returned, although the same payload framed without the
    noise is returned as a packet. *)
Theorem C1_resync_loses_packet :
  rr_packet (read_packet (MARKER ++ zero_payload)) = Some zero_payload /\
  rr_packet (read_packet (garbage6 ++ MARKER ++ zero_payload)) = None /\
  rr_depth (read_packet (garbage6 ++ MARKER ++ zero_payload)) = 2 /\
  rr_warnings (read_packet (garbage6 ++ MARKER ++ zero_payload))
    = [SyncLostGot garbage6; SyncLostGot (take 6 zero_payload)].
Proof. vm_compute. repeat split; reflexivity. Qed.

(** C8 (bounded call depth).  [_read_packet] calls itself once per
    successful resynchronization, so on [n] blocks of six noise bytes each
    followed by the marker it needs [n + 1] nested frames: with room for
    [room] frames on the stack it raises [RecursionError] exactly when
    [room <= n], and otherwise reads the stream as [read_packet] does.  No
    constant bounds the depth. *)
Theorem C8_recursion_limit :
  (forall room n : nat,
     option_map rr_depth (read_packet_limited room (resync_blocks n))
     = if Nat.leb room n then None else Some (S n)) /\
  (forall s : stream, read_packet_limited (S (S (length s))) s = Some (read_packet s)).
Proof.
  split.
  - apply read_packet_limited_resync.
  - intros s. unfold read_packet. apply read_packet_limited_fuel. lia.
Qed.

(** C2 (windowing): packets whose samples make exactly [K] full windows
    (1024 core samples each, plus the 256 trailing-overlap samples the
    windower waits for) give exactly [K] windows with ids [0 .. K-1] in
    emission order, each with a 1024-sample core whose first and last
    timestamps are [start_time] and [end_time]. *)
Theorem C2_windows (ps : list (list Byte.byte)) (K : nat)
    (Hv : Forall (fun p => length p = PACKET_DATA_SIZE) ps)
    (HK : SEGMENT_SIZE * K + OVERLAP_SIZE <= BUFFER_SIZE * length ps
          < SEGMENT_SIZE * (K + 1) + OVERLAP_SIZE) :
  let out := snd (run_packets init_seg_state ps) in
  map segment_id out = seq 0 K /\
  Forall (fun seg => length (timestamp_ms seg) = SEGMENT_SIZE /\
                     core_end_idx seg - core_start_idx seg = SEGMENT_SIZE /\
                     sample_count seg = SEGMENT_SIZE /\
                     head (timestamp_ms seg) = Some (start_time seg) /\
                     last (timestamp_ms seg) = Some (end_time seg)) out.
Proof.
  intros out. pose proof (emitted_windows ps Hv) as HW.
  rewrite (run_packets_count ps K Hv HK) in HW. fold out in HW.
  split.
  - apply (Forall2_map_l _ _ _ _ HW). intros seg k Hp. apply Hp.
  - apply (Forall2_in_r_Forall _ _ _ _ HW).
    intros seg k _ (Hb & _ & Hts & _ & _ & _ & Hce & Hsc & Hhd & Hl).
    split; [|split; [lia|done]].
    rewrite Hts, length_map, length_take_le; [done|].
    rewrite length_drop. unfold SEGMENT_SIZE, OVERLAP_SIZE, sample in *. lia.
Qed.

Lemma C2_windows_witness :
  Forall (fun p => length p = PACKET_DATA_SIZE) (ramp_packets 9) /\
  (SEGMENT_SIZE * 2 + OVERLAP_SIZE <= BUFFER_SIZE * length (ramp_packets 9)
     < SEGMENT_SIZE * (2 + 1) + OVERLAP_SIZE) /\
  (let out := snd (run_packets init_seg_state (ramp_packets 9)) in
   map segment_id out = seq 0 2 /\
   Forall (fun seg => length (timestamp_ms seg) = SEGMENT_SIZE /\
                      core_end_idx seg - core_start_idx seg = SEGMENT_SIZE /\
                      sample_count seg = SEGMENT_SIZE /\
                      head (timestamp_ms seg) = Some (start_time seg) /\
                      last (timestamp_ms seg) = Some (end_time seg)) out).
Proof.
  assert (Hv : Forall (fun p => length p = PACKET_DATA_SIZE) (ramp_packets 9))
    by (vm_compute; repeat constructor).
  assert (HK : SEGMENT_SIZE * 2 + OVERLAP_SIZE <= BUFFER_SIZE * length (ramp_packets 9)
                 < SEGMENT_SIZE * (2 + 1) + OVERLAP_SIZE) by (vm_compute; lia).
  split; [exact Hv|]. split; [exact HK|].
  exact (C2_windows (ramp_packets 9) 2 Hv HK).
Defined.

(** C3 (extended length), as stated: the first window of the session is
    handed to the filter cascade with 1280 samples, not 1536: its leading
    overlap is empty. *)
Lemma C3_first_window_is_1280 :
  ~ (forall ps : list (list Byte.byte),
       Forall (fun p => length p = PACKET_DATA_SIZE) ps ->
       Forall (fun seg => length (extended_timestamp_ms seg) = EXTENDED_SEGMENT_SIZE /\
                          length (extended_adc_value seg) = EXTENDED_SEGMENT_SIZE)
              (snd (run_packets init_seg_state ps))).
Proof.
  intros H.
  assert (Hv : Forall (fun p => length p = PACKET_DATA_SIZE) (ramp_packets 5))
    by (vm_compute; repeat constructor).
  specialize (H _ Hv).
  assert (Hc : map (fun seg => length (extended_adc_value seg))
                 (snd (run_packets init_seg_state (ramp_packets 5))) = [1280])
    by (vm_compute; reflexivity).
  apply (Forall_impl _ (fun seg => length (extended_adc_value seg) = EXTENDED_SEGMENT_SIZE))
    in H; [|intros seg [_ Hs]; exact Hs].
  apply (proj2 (Forall_map (fun seg => length (extended_adc_value seg))
                  (fun n => n = EXTENDED_SEGMENT_SIZE) _)) in H.
  rewrite Hc in H. inversion H as [|? ? Hx _]. vm_compute in Hx. discriminate.
Qed.

(** C3, amended: the extended arrays of a window have
    [core_start_idx + 1280] samples, where [core_start_idx] is 0 for the
    first window (segment 0, empty leading overlap: 1280 samples) and 256
    for every later window (1536 = core_len + 2 * overlap_len). *)
Theorem C3_extended_length (ps : list (list Byte.byte))
    (Hv : Forall (fun p => length p = PACKET_DATA_SIZE) ps) :
  Forall (fun seg =>
            core_start_idx seg = (if Nat.eqb (segment_id seg) 0 then 0 else OVERLAP_SIZE) /\
            length (extended_timestamp_ms seg) = core_start_idx seg + SEGMENT_SIZE + OVERLAP_SIZE /\
            length (extended_adc_value seg) = core_start_idx seg + SEGMENT_SIZE + OVERLAP_SIZE)
         (snd (run_packets init_seg_state ps)).
Proof.
  apply (Forall2_in_r_Forall _ _ _ _ (emitted_windows ps Hv)).
  intros seg k _ (Hb & Hid & _ & Hets & Headc & Hcs & _).
  assert (Hw : length (take (SEGMENT_SIZE + OVERLAP_SIZE) (drop (SEGMENT_SIZE * k) (samples_of ps)))
               = SEGMENT_SIZE + OVERLAP_SIZE).
  { apply length_take_le. rewrite length_drop. unfold SEGMENT_SIZE, OVERLAP_SIZE, sample in *. lia. }
  assert (Ho : length (overlap_at (samples_of ps) k) = core_start_idx seg).
  { rewrite Hcs. apply length_overlap_at. destruct (Nat.eq_dec k 0); [left; done|right].
    unfold SEGMENT_SIZE, OVERLAP_SIZE, sample in *. lia. }
  rewrite Hid, Hets, Headc, !length_map, !length_app, Hw, Ho.
  split; [exact Hcs | split; lia].
Qed.

Lemma C3_extended_length_witness :
  Forall (fun p => length p = PACKET_DATA_SIZE) (ramp_packets 9) /\
  Forall (fun seg =>
            core_start_idx seg = (if Nat.eqb (segment_id seg) 0 then 0 else OVERLAP_SIZE) /\
            length (extended_timestamp_ms seg) = core_start_idx seg + SEGMENT_SIZE + OVERLAP_SIZE /\
            length (extended_adc_value seg) = core_start_idx seg + SEGMENT_SIZE + OVERLAP_SIZE)
         (snd (run_packets init_seg_state (ramp_packets 9))).
Proof.
  assert (Hv : Forall (fun p => length p = PACKET_DATA_SIZE) (ramp_packets 9))
    by (vm_compute; repeat constructor).
  split; [exact Hv|]. exact (C3_extended_length (ramp_packets 9) Hv).
Defined.

(** C4 (overlap continuity): for consecutive windows [i] and [i + 1], the
    first 256 samples of window [i + 1]'s extended arrays are the last 256
    samples of window [i]'s core-and-trailing-overlap region (timestamps
    and ADC values alike), and the two cores are consecutive 1024-sample
    chunks of the decoded stream (no gap, no repeated sample). *)
Theorem C4_overlap_continuity (ps : list (list Byte.byte)) (i : nat) (s1 s2 : segment)
    (Hv : Forall (fun p => length p = PACKET_DATA_SIZE) ps)
    (H1 : nth_error (snd (run_packets init_seg_state ps)) i = Some s1)
    (H2 : nth_error (snd (run_packets init_seg_state ps)) (S i) = Some s2) :
  let r1_ts := drop (core_start_idx s1) (extended_timestamp_ms s1) in
  let r1_adc := drop (core_start_idx s1) (extended_adc_value s1) in
  take OVERLAP_SIZE (extended_timestamp_ms s2) = drop (length r1_ts - OVERLAP_SIZE) r1_ts /\
  take OVERLAP_SIZE (extended_adc_value s2) = drop (length r1_adc - OVERLAP_SIZE) r1_adc /\
  timestamp_ms s1 ++ timestamp_ms s2
    = map fst (take (2 * SEGMENT_SIZE) (drop (SEGMENT_SIZE * i) (samples_of ps))).
Proof.
  pose proof (emitted_windows ps Hv) as HW.
  destruct (Forall2_nth_error _ _ _ _ _ HW H1) as (k1 & Hk1 & P1).
  destruct (Forall2_nth_error _ _ _ _ _ HW H2) as (k2 & Hk2 & P2).
  apply nth_error_seq_Some in Hk1 as [-> _]. apply nth_error_seq_Some in Hk2 as [-> _].
  cbn [Nat.add] in P1, P2.
  destruct P1 as (Hb1 & _ & Hts1 & Hets1 & Headc1 & Hcs1 & _).
  destruct P2 as (Hb2 & _ & Hts2 & Hets2 & Headc2 & _).
  assert (Ho : core_start_idx s1 = length (overlap_at (samples_of ps) i)).
  { rewrite Hcs1. symmetry. apply length_overlap_at. destruct (Nat.eq_dec i 0); [left; done|right].
    unfold SEGMENT_SIZE, OVERLAP_SIZE, sample in *. lia. }
  intros r1_ts r1_adc. subst r1_ts r1_adc.
  rewrite Ho, Hets1, Headc1, Hets2, Headc2, Hts1, Hts2.
  split; [apply overlap_handover; exact Hb2|].
  split; [apply overlap_handover; exact Hb2|].
  apply cores_adjacent.
Qed.

Lemma C4_overlap_continuity_witness :
  exists s1 s2,
    Forall (fun p => length p = PACKET_DATA_SIZE) (ramp_packets 9) /\
    nth_error (snd (run_packets init_seg_state (ramp_packets 9))) 0 = Some s1 /\
    nth_error (snd (run_packets init_seg_state (ramp_packets 9))) 1 = Some s2 /\
    (let r1_ts := drop (core_start_idx s1) (extended_timestamp_ms s1) in
     let r1_adc := drop (core_start_idx s1) (extended_adc_value s1) in
     take OVERLAP_SIZE (extended_timestamp_ms s2) = drop (length r1_ts - OVERLAP_SIZE) r1_ts /\
     take OVERLAP_SIZE (extended_adc_value s2) = drop (length r1_adc - OVERLAP_SIZE) r1_adc /\
     timestamp_ms s1 ++ timestamp_ms s2
       = map fst (take (2 * SEGMENT_SIZE) (drop (SEGMENT_SIZE * 0) (samples_of (ramp_packets 9))))).
Proof.
  assert (Hv : Forall (fun p => length p = PACKET_DATA_SIZE) (ramp_packets 9))
    by (vm_compute; repeat constructor).
  destruct (nth_error (snd (run_packets init_seg_state (ramp_packets 9))) 0) as [s1|] eqn:H1;
    [|vm_compute in H1; discriminate].
  destruct (nth_error (snd (run_packets init_seg_state (ramp_packets 9))) 1) as [s2|] eqn:H2;
    [|vm_compute in H2; discriminate].
  exists s1, s2. split; [exact Hv|]. split; [reflexivity|]. split; [reflexivity|].
  exact (C4_overlap_continuity (ramp_packets 9) 0 s1 s2 Hv H1 H2).
Defined.

(** C6, amended: a window processed by [process_segment] went through the
    notch filter, then the FIR low-pass, then the elliptic high-pass, each
    applied with [filtfilt] to the whole extended array.  The filtered and
    raw cores are the slices [core_start_idx, core_end_idx) of the filtered
    and raw extended arrays; only the filtered core is normalized.  The
    slice starts at 0 for the first window and at 256 for later ones. *)
Theorem C6_cascade_then_core (lib : Filtering.scipy_signal) (ps : list (list Byte.byte))
    (seg : segment) (p : Filtering.processed)
    (Hv : Forall (fun pk => length pk = Acquisition.PACKET_DATA_SIZE) ps)
    (Hin : In seg (snd (run_packets init_seg_state ps)))
    (Hp : Filtering.process_segment lib seg = Some p) :
  (exists y1 y2 y3,
     Filtering.apply_notch_filter lib (map Filtering.astype_float32 (extended_adc_value seg)) = Some y1 /\
     Filtering.apply_fir_lowpass lib y1 = Some y2 /\
     Filtering.apply_iir_highpass lib y2 = Some y3 /\
     Filtering.filtered_signal p = py_slice y3 (core_start_idx seg) (core_end_idx seg)) /\
  Filtering.raw_signal p = py_slice (extended_adc_value seg) (core_start_idx seg) (core_end_idx seg) /\
  Filtering.normalize_segment (Filtering.filtered_signal p) = Some (Filtering.processed_signal p) /\
  core_start_idx seg = (if Nat.eqb (segment_id seg) 0 then 0 else OVERLAP_SIZE) /\
  core_end_idx seg = core_start_idx seg + SEGMENT_SIZE.
Proof.
  pose proof (proj1 (List.Forall_forall _ _) (emitted_core_idx ps Hv) seg Hin) as [Hcs Hce].
  unfold Filtering.process_segment in Hp.
  destruct (Filtering.apply_filtering_pipeline lib (extended_adc_value seg)) as [fe|] eqn:Ef;
    cbn [mbind option_bind] in Hp; [|discriminate].
  destruct (Filtering.normalize_segment (py_slice fe (core_start_idx seg) (core_end_idx seg)))
    as [nz|] eqn:En; cbn [mbind option_bind] in Hp; [|discriminate].
  injection Hp as <-. cbn [Filtering.filtered_signal Filtering.raw_signal Filtering.processed_signal].
  unfold Filtering.apply_filtering_pipeline in Ef.
  destruct (Filtering.apply_notch_filter _ _) as [y1|] eqn:E1; cbn [mbind option_bind] in Ef; [|discriminate].
  destruct (Filtering.apply_fir_lowpass lib y1) as [y2|] eqn:E2; cbn [mbind option_bind] in Ef; [|discriminate].
  split; [exists y1, y2, fe; done|].
  split; [reflexivity|]. split; [exact En|]. split; [exact Hcs|exact Hce].
Qed.

(** C6 (core slice), as stated: the raw core is not always the slice
    [overlap_len, overlap_len + core_len) of the extended array.  For the
    first window it starts at 0. *)
Lemma C6_first_core_at_zero :
  ~ (forall lib ps seg p,
       Forall (fun pk => length pk = Acquisition.PACKET_DATA_SIZE) ps ->
       In seg (snd (run_packets init_seg_state ps)) ->
       Filtering.process_segment lib seg = Some p ->
       Filtering.raw_signal p = py_slice (extended_adc_value seg) OVERLAP_SIZE (OVERLAP_SIZE + SEGMENT_SIZE)).
Proof.
  intros H.
  assert (Hv : Forall (fun p => length p = Acquisition.PACKET_DATA_SIZE) (ramp_packets 5))
    by (vm_compute; repeat constructor).
  destruct (nth_error (snd (run_packets init_seg_state (ramp_packets 5))) 0) as [seg|] eqn:Hs;
    [|vm_compute in Hs; discriminate].
  pose proof (nth_error_In _ _ Hs) as Hin.
  destruct (process_segment_some_of_check id_lib _ 0 seg Hs) as [p Ep];
    [vm_compute; reflexivity|].
  specialize (H _ _ _ _ Hv Hin Ep).
  assert (F1 : option_map (fun s => option_map (fun p => nth_error (Filtering.raw_signal p) 0)
                                      (Filtering.process_segment id_lib s))
                 (nth_error (snd (run_packets init_seg_state (ramp_packets 5))) 0)
               = Some (Some (Some 0%Z))) by (vm_compute; reflexivity).
  assert (F2 : option_map (fun s => nth_error (py_slice (extended_adc_value s) OVERLAP_SIZE
                                                 (OVERLAP_SIZE + SEGMENT_SIZE)) 0)
                 (nth_error (snd (run_packets init_seg_state (ramp_packets 5))) 0)
               = Some (Some 256%Z)) by (vm_compute; reflexivity).
  rewrite Hs in F1, F2. cbn [option_map] in F1, F2. rewrite Ep in F1. cbn [option_map] in F1.
  rewrite H in F1. congruence.
Qed.

Lemma C6_cascade_then_core_witness :
  exists seg p,
    Forall (fun pk => length pk = Acquisition.PACKET_DATA_SIZE) (ramp_packets 9) /\
    In seg (snd (run_packets init_seg_state (ramp_packets 9))) /\
    Filtering.process_segment id_lib seg = Some p /\
  (exists y1 y2 y3,
     Filtering.apply_notch_filter id_lib (map Filtering.astype_float32 (extended_adc_value seg)) = Some y1 /\
     Filtering.apply_fir_lowpass id_lib y1 = Some y2 /\
     Filtering.apply_iir_highpass id_lib y2 = Some y3 /\
     Filtering.filtered_signal p = py_slice y3 (core_start_idx seg) (core_end_idx seg)) /\
  Filtering.raw_signal p = py_slice (extended_adc_value seg) (core_start_idx seg) (core_end_idx seg) /\
  Filtering.normalize_segment (Filtering.filtered_signal p) = Some (Filtering.processed_signal p) /\
  core_start_idx seg = (if Nat.eqb (segment_id seg) 0 then 0 else OVERLAP_SIZE) /\
  core_end_idx seg = core_start_idx seg + SEGMENT_SIZE.
Proof.
  assert (Hv : Forall (fun p => length p = Acquisition.PACKET_DATA_SIZE) (ramp_packets 9))
    by (vm_compute; repeat constructor).
  destruct (nth_error (snd (run_packets init_seg_state (ramp_packets 9))) 1) as [seg|] eqn:Hs;
    [|vm_compute in Hs; discriminate].
  assert (Hin : In seg (snd (run_packets init_seg_state (ramp_packets 9))))
    by (eapply nth_error_In; exact Hs).
  destruct (process_segment_some_of_check id_lib _ 1 seg Hs) as [p Ep];
    [vm_compute; reflexivity|].
  exists seg, p. split; [exact Hv|]. split; [exact Hin|]. split; [exact Ep|].
  exact (C6_cascade_then_core id_lib (ramp_packets 9) seg p Hv Hin Ep).
Defined.

(** C9 (classifier fallback): with no interpreter, or when the reshape or
    the interpreter call raises, [run_inference] returns class 0, label
    ["NSR"] and confidence 0.0. *)
Theorem C9_default_on_failure (interp : option Inference.interpreter) (signal : list float)
    (Hfail : interp = None \/
             exists it, interp = Some it /\ Inference.invoke_model it signal = None) :
  Inference.run_inference interp signal = Inference.mk_prediction 0 "NSR" 0%float.
Proof.
  destruct Hfail as [->|(it & -> & Hm)]; [reflexivity|].
  unfold Inference.run_inference. rewrite Hm. reflexivity.
Qed.

Lemma C9_default_on_failure_witness :
  (Some failing_interpreter = None \/
   exists it, Some failing_interpreter = Some it /\ Inference.invoke_model it [] = None) /\
  Inference.run_inference (Some failing_interpreter) [] = Inference.mk_prediction 0 "NSR" 0%float.
Proof.
  assert (H : Some failing_interpreter = None \/
              exists it, Some failing_interpreter = Some it /\ Inference.invoke_model it [] = None)
    by (right; exists failing_interpreter; split; reflexivity).
  split; [exact H|]. exact (C9_default_on_failure _ _ H).
Defined.

(** C10 (session on dequeue): a segment dequeued while no session is
    active, including right after [STOP_SESSION] closed one, opens the
    session ["ecg_" ++ timestamp]: its three files hold their header, then
    the segment's rows.  No other file changes. *)
Theorem C10_session_opened_before_write (interp : option Inference.interpreter)
    (msg : option string) (seg : Filtering.processed) (timestamp : string)
    (st : Inference.inf_state)
    (Hidle : Inference.session_active st = false \/ msg = Some "STOP_SESSION") :
  let name := String.append "ecg_" timestamp in
  let st' := Inference.inference_step interp msg (Some seg) timestamp st in
  Inference.session_active st' = true /\
  Inference.current_session st' = Some name /\
  Inference.files st' !! Inference.signal_path name =
    Some (Inference.HeaderRow Inference.signal_header ::
          zip_with Inference.SignalRow (Filtering.p_timestamp_ms seg) (Filtering.raw_signal seg)) /\
  Inference.files st' !! Inference.filtered_path name =
    Some (Inference.HeaderRow Inference.signal_header ::
          zip_with Inference.FilteredRow (Filtering.p_timestamp_ms seg) (Filtering.filtered_signal seg)) /\
  Inference.files st' !! Inference.annotation_path name =
    Some [Inference.HeaderRow Inference.rhythm_header;
          Inference.rhythm_row seg (Inference.run_inference interp (Filtering.processed_signal seg))] /\
  (forall path, path <> Inference.signal_path name -> path <> Inference.filtered_path name ->
     path <> Inference.annotation_path name ->
     Inference.files st' !! path = Inference.files st !! path).
Proof.
  intros name st'. subst st'. unfold Inference.inference_step.
  destruct Hidle as [Hi | ->].
  - destruct msg as [m|]; [rewrite Hi, andb_false_r|]; rewrite Hi; apply fresh_session_writes.
  - rewrite String.eqb_refl, andb_true_l.
    destruct (Inference.session_active st) eqn:Ha; cbn [Inference.session_active Inference.set_session_active].
    + apply (fresh_session_writes interp seg name
               (Inference.set_session_active false (Inference.stop_session st))).
    + rewrite Ha. apply fresh_session_writes.
Qed.

Lemma C10_session_opened_before_write_witness :
  let st0 := Inference.inference_step None None (Some small_processed) "150126_093000"
               Inference.init_inf_state in
  Inference.session_active st0 = true /\
  Inference.files st0 !! Inference.signal_path "ecg_150126_093000" <> None /\
  (Inference.session_active st0 = false \/ Some "STOP_SESSION" = Some "STOP_SESSION") /\
  let name := String.append "ecg_" "150126_093005" in
  let st' := Inference.inference_step None (Some "STOP_SESSION") (Some small_processed)
               "150126_093005" st0 in
  (Inference.session_active st' = true /\
   Inference.current_session st' = Some name /\
   Inference.files st' !! Inference.signal_path name =
     Some (Inference.HeaderRow Inference.signal_header ::
           zip_with Inference.SignalRow (Filtering.p_timestamp_ms small_processed)
             (Filtering.raw_signal small_processed)) /\
   Inference.files st' !! Inference.filtered_path name =
     Some (Inference.HeaderRow Inference.signal_header ::
           zip_with Inference.FilteredRow (Filtering.p_timestamp_ms small_processed)
             (Filtering.filtered_signal small_processed)) /\
   Inference.files st' !! Inference.annotation_path name =
     Some [Inference.HeaderRow Inference.rhythm_header;
           Inference.rhythm_row small_processed
             (Inference.run_inference None (Filtering.processed_signal small_processed))] /\
   (forall path, path <> Inference.signal_path name -> path <> Inference.filtered_path name ->
      path <> Inference.annotation_path name ->
      Inference.files st' !! path = Inference.files st0 !! path)) /\
  Inference.files st' !! Inference.signal_path "ecg_150126_093000" =
    Inference.files st0 !! Inference.signal_path "ecg_150126_093000".
Proof.
  set (st0 := Inference.inference_step None None (Some small_processed) "150126_093000"
                Inference.init_inf_state).
  assert (Ha : Inference.session_active st0 = true) by (vm_compute; reflexivity).
  assert (Hf : Inference.files st0 !! Inference.signal_path "ecg_150126_093000" <> None)
    by (vm_compute; discriminate).
  assert (H : Inference.session_active st0 = false \/ Some "STOP_SESSION" = Some "STOP_SESSION")
    by (right; reflexivity).
  pose proof (C10_session_opened_before_write None (Some "STOP_SESSION") small_processed
                "150126_093005" st0 H) as C.
  cbv zeta in C |- *.
  split; [exact Ha|]. split; [exact Hf|]. split; [exact H|]. split; [exact C|].
  destruct C as (_ & _ & _ & _ & _ & Hother).
  apply Hother; vm_compute; discriminate.
Defined.



End Claims.


(* ------------------------------------------------------------------ *)
(** ** Further properties of the code *)
(* ------------------------------------------------------------------ *)
Module Extras.
Import Acquisition AcquisitionLoop Segmentation SegmentationModel Inputs
       SegmentationFacts SegFacts2 FloatFacts WindowFacts PicoFacts ReaderFacts
       AcquisitionControl ControlFacts InferenceModel InferenceModelFacts.

(** X1: a stream that starts with the marker followed by 1536 payload bytes
    is read by [_read_packet] as exactly that payload, with no warning, the
    rest of the stream left unread and no self-call. *)
Theorem X1_read_packet_frame (data rest : list Byte.byte) :
  length data = PACKET_DATA_SIZE ->
  read_packet (Acquisition.MARKER ++ data ++ rest) = mk_read_result (Some data) [] rest 1.
Proof. apply read_packet_frame. Qed.

Lemma X1_read_packet_frame_witness :
  length zero_payload = PACKET_DATA_SIZE /\
  read_packet (Acquisition.MARKER ++ zero_payload ++ []) = mk_read_result (Some zero_payload) [] [] 1.
Proof.
  assert (H : length zero_payload = PACKET_DATA_SIZE) by reflexivity.
  split; [exact H|]. exact (X1_read_packet_frame zero_payload [] H).
Defined.

(** X2: a packet returned by [_read_packet] always has 1536 bytes and was
    preceded in the stream by the marker: the bytes consumed are some
    skipped bytes, the marker, then the packet. *)
Theorem X2_read_packet_sound (s d : stream) :
  rr_packet (read_packet s) = Some d ->
  length d = PACKET_DATA_SIZE /\
  exists pre, s = pre ++ Acquisition.MARKER ++ d ++ rr_rest (read_packet s).
Proof. apply read_packet_fuel_sound. Qed.

Lemma X2_read_packet_sound_witness :
  rr_packet (read_packet (garbage6 ++ Acquisition.MARKER ++ Acquisition.MARKER ++ zero_payload)) = Some zero_payload /\
  length zero_payload = PACKET_DATA_SIZE /\
  exists pre, garbage6 ++ Acquisition.MARKER ++ Acquisition.MARKER ++ zero_payload =
    pre ++ Acquisition.MARKER ++ zero_payload
        ++ rr_rest (read_packet (garbage6 ++ Acquisition.MARKER ++ Acquisition.MARKER ++ zero_payload)).
Proof.
  assert (H : rr_packet (read_packet (garbage6 ++ Acquisition.MARKER ++ Acquisition.MARKER ++ zero_payload))
              = Some zero_payload) by (vm_compute; reflexivity).
  split; [exact H|]. exact (X2_read_packet_sound _ _ H).
Defined.

(** X3: [_find_marker] consumes at most 1001 bytes; when it gives up the
    stream is exhausted or 1001 bytes were consumed, and when it succeeds
    the consumed bytes end with the marker. *)
Theorem X3_find_marker_bounds (s s' : stream) (b : bool) :
  find_marker s = (b, s') ->
  exists pre, s = pre ++ s' /\ length pre <= 1001 /\
    (b = false -> s' = [] \/ length pre = 1001) /\
    (b = true -> exists q, pre = q ++ Acquisition.MARKER).
Proof. apply find_marker_spec. Qed.

Lemma X3_find_marker_bounds_witness :
  find_marker (garbage6 ++ Acquisition.MARKER ++ [Byte.x01]) = (true, [Byte.x01]) /\
  exists pre, garbage6 ++ Acquisition.MARKER ++ [Byte.x01] = pre ++ [Byte.x01] /\
    length pre <= 1001 /\
    (true = false -> [Byte.x01] = [] \/ length pre = 1001) /\
    (true = true -> exists q, pre = q ++ Acquisition.MARKER).
Proof.
  assert (H : find_marker (garbage6 ++ Acquisition.MARKER ++ [Byte.x01]) = (true, [Byte.x01]))
    by (vm_compute; reflexivity).
  split; [exact H|]. exact (X3_find_marker_bounds _ _ _ H).
Defined.

(** X4: a final frame cut short (the marker and fewer than 1536 bytes) is
    dropped: [_read_packet] returns [None], reports the incomplete packet
    with its length and consumes the whole stream. *)
Theorem X4_read_packet_short (d : list Byte.byte) :
  length d < PACKET_DATA_SIZE ->
  read_packet (Acquisition.MARKER ++ d) = mk_read_result None [IncompletePacket (length d)] [] 1.
Proof. apply read_packet_short. Qed.

Lemma X4_read_packet_short_witness :
  length garbage6 < PACKET_DATA_SIZE /\
  read_packet (Acquisition.MARKER ++ garbage6) = mk_read_result None [IncompletePacket 6] [] 1.
Proof.
  assert (H : length garbage6 < PACKET_DATA_SIZE) by (vm_compute; lia).
  split; [exact H|]. exact (X4_read_packet_short garbage6 H).
Defined.

(** X5: on the Pico, a recording session (start, one timer callback per
    reading, stop) started while idle with its 1536-byte buffer writes to
    stdout, when none of its writes to stdout raises, one marker-prefixed
    frame per 256 readings, in order, the last frame holding the remaining
    readings (none if there are none). *)
Theorem X5_pico_session_frames (now : Z) (rs : list (Z * Z)) (st : Pico.pico) :
  Pico.is_recording st = false -> length (Pico.adc_buffer st) = Pico.BUFFER_SIZE * 6 ->
  Forall (fun w => w = Pico.WriteOk) (Pico.usb st) ->
  Pico.stdout (Pico.session now rs st) = Pico.stdout st ++ PicoModel.frames (map PicoModel.packed rs).
Proof. apply session_stream_eq. Qed.

Lemma X5_pico_session_frames_witness :
  Pico.is_recording Pico.init_pico = false /\
  length (Pico.adc_buffer Pico.init_pico) = Pico.BUFFER_SIZE * 6 /\
  Forall (fun w => w = Pico.WriteOk) (Pico.usb Pico.init_pico) /\
  Pico.stdout (Pico.session 0 [(512, 0); (513, 3)]%Z Pico.init_pico) =
    Pico.stdout Pico.init_pico ++ PicoModel.frames (map PicoModel.packed [(512, 0); (513, 3)]%Z).
Proof.
  assert (H1 : Pico.is_recording Pico.init_pico = false) by reflexivity.
  assert (H2 : length (Pico.adc_buffer Pico.init_pico) = Pico.BUFFER_SIZE * 6) by reflexivity.
  assert (H3 : Forall (fun w => w = Pico.WriteOk) (Pico.usb Pico.init_pico)) by constructor.
  split; [exact H1|]. split; [exact H2|]. split; [exact H3|].
  exact (X5_pico_session_frames 0 _ _ H1 H2 H3).
Defined.

(** X6: what a Pico session writes when none of its writes to stdout
    raises, read by [acquisition_loop] once it has
    all arrived, gives 1536-byte packets only, which decode to the
    session's readings of the complete frames, in order, with timestamps and
    values in range; the last, partial frame stays waiting in the port. *)
Theorem X6_pico_to_receiver (now : Z) (rs : list (Z * Z)) (st : Pico.pico) :
  Pico.is_recording st = false -> length (Pico.adc_buffer st) = Pico.BUFFER_SIZE * 6 ->
  Forall (fun w => w = Pico.WriteOk) (Pico.usb st) ->
  Forall PicoModel.in_range rs ->
  let K := Pico.BUFFER_SIZE * (length rs / Pico.BUFFER_SIZE) in
  exists out,
    Pico.stdout (Pico.session now rs st) = Pico.stdout st ++ out /\
    samples_of (acquisition_run out).1 = map PicoModel.as_sample (take K rs) /\
    Forall (fun p => length p = PACKET_DATA_SIZE) (acquisition_run out).1 /\
    (acquisition_run out).2 = PicoModel.frames (map PicoModel.packed (drop K rs)).
Proof.
  intros H1 H2 Hu Hr K. exists (PicoModel.frames (map PicoModel.packed rs)).
  split; [exact (session_stream_eq now rs st H1 H2 Hu)|].
  unfold acquisition_run. apply reads_frames; [exact Hr|].
  pose proof (frames_length (map PicoModel.packed rs)) as Hf.
  rewrite length_concat_packed in Hf.
  transitivity (length rs); [|lia].
  apply Nat.Div0.div_le_upper_bound. unfold Pico.BUFFER_SIZE. lia.
Qed.

Lemma X6_pico_to_receiver_witness :
  Pico.is_recording Pico.init_pico = false /\
  length (Pico.adc_buffer Pico.init_pico) = Pico.BUFFER_SIZE * 6 /\
  Forall (fun w => w = Pico.WriteOk) (Pico.usb Pico.init_pico) /\
  Forall PicoModel.in_range [(512, 0); (513, 3)]%Z /\
  let K := Pico.BUFFER_SIZE * (length [(512, 0); (513, 3)]%Z / Pico.BUFFER_SIZE) in
  exists out,
    Pico.stdout (Pico.session 0 [(512, 0); (513, 3)]%Z Pico.init_pico) = Pico.stdout Pico.init_pico ++ out /\
    samples_of (acquisition_run out).1 = map PicoModel.as_sample (take K [(512, 0); (513, 3)]%Z) /\
    Forall (fun p => length p = PACKET_DATA_SIZE) (acquisition_run out).1 /\
    (acquisition_run out).2 = PicoModel.frames (map PicoModel.packed (drop K [(512, 0); (513, 3)]%Z)).
Proof.
  assert (H1 : Pico.is_recording Pico.init_pico = false) by reflexivity.
  assert (H2 : length (Pico.adc_buffer Pico.init_pico) = Pico.BUFFER_SIZE * 6) by reflexivity.
  assert (Hu : Forall (fun w => w = Pico.WriteOk) (Pico.usb Pico.init_pico)) by constructor.
  assert (H3 : Forall PicoModel.in_range [(512, 0); (513, 3)]%Z).
  { unfold PicoModel.in_range. repeat constructor; cbn; lia. }
  split; [exact H1|]. split; [exact H2|]. split; [exact Hu|]. split; [exact H3|].
  exact (X6_pico_to_receiver 0 _ _ H1 H2 Hu H3).
Defined.

(** X7: the six bytes [struct.pack('<IH', ...)] writes for each reading
    decode, under [_unpack_packet], back to the readings' timestamps and
    values, in order, when both are in range of their fields. *)
Theorem X7_pack_unpack (rs : list (Z * Z)) :
  Forall PicoModel.in_range rs ->
  unpack_packet (concat (map PicoModel.packed rs)) = Some (map PicoModel.as_sample rs).
Proof. apply unpack_packed. Qed.

Lemma X7_pack_unpack_witness :
  Forall PicoModel.in_range [(65535, 4294967295); (0, 7)]%Z /\
  unpack_packet (concat (map PicoModel.packed [(65535, 4294967295); (0, 7)]%Z)) =
    Some (map PicoModel.as_sample [(65535, 4294967295); (0, 7)]%Z).
Proof.
  assert (H : Forall PicoModel.in_range [(65535, 4294967295); (0, 7)]%Z).
  { unfold PicoModel.in_range. repeat constructor; cbn; lia. }
  split; [exact H|]. exact (X7_pack_unpack _ H).
Defined.

(** X8: before [cleanup], after a run of button presses [recording] is
    flipped once per press, whatever the port does, and
    [inf_control_queue] gains one STOP_SESSION per stop, and nothing else. *)
Theorem X8_toggles_alternate (envs : list ser_env) (st : acq_state) :
  exiting st = false ->
  let st' := toggles envs st in
  exiting st' = false /\
  recording st' = xorb (recording st) (Nat.odd (length envs)) /\
  inf_control_queue st' =
    inf_control_queue st ++ repeat "STOP_SESSION" ((length envs + Nat.b2n (recording st)) / 2).
Proof. apply toggles_count. Qed.

Lemma X8_toggles_alternate_witness :
  exiting init_acq_state = false /\
  let envs := [mk_ser_env 0 true None; mk_ser_env 3 false None; mk_ser_env 0 true (Some None)] in
  let st' := toggles envs init_acq_state in
  exiting st' = false /\
  recording st' = xorb (recording init_acq_state) (Nat.odd (length envs)) /\
  inf_control_queue st' =
    inf_control_queue init_acq_state
      ++ repeat "STOP_SESSION" ((length envs + Nat.b2n (recording init_acq_state)) / 2).
Proof.
  assert (H : exiting init_acq_state = false) by reflexivity.
  split; [exact H|]. exact (X8_toggles_alternate _ _ H).
Defined.

(** X9: [cleanup] leaves the process not recording, exiting and with the
    port closed; it queues STOP_SESSION exactly when it was recording; and
    button presses after it change nothing. *)
Theorem X9_cleanup_final (env : ser_env) (envs : list ser_env) (st : acq_state) :
  let st1 := AcquisitionControl.cleanup env st in
  recording st1 = false /\ exiting st1 = true /\ ser_is_open st1 = false /\
  inf_control_queue st1 =
    inf_control_queue st ++ (if recording st then ["STOP_SESSION"] else []) /\
  toggles envs st1 = st1.
Proof. apply cleanup_spec. Qed.

(** X10: when writing START fails, [start_acquisition] raises after setting
    [recording]: the process counts as recording although nothing was
    written to the port and no RECORDING_START was reported, and the next
    button press stops it, queueing STOP_SESSION. *)
Theorem X10_failed_start (env env' : ser_env) (st : acq_state) :
  write_ok env = false -> exiting st = false -> recording st = false ->
  let st1 := toggle_recording env st in
  recording st1 = true /\ ser_written st1 = ser_written st /\
  ctl_status st1 = ctl_status st ++
    (if Nat.ltb 0 (bytes_before env) then [ClearedBytes (bytes_before env)] else []) /\
  inf_control_queue (toggle_recording env' st1) = inf_control_queue st ++ ["STOP_SESSION"].
Proof. apply failed_start_step. Qed.

Lemma X10_failed_start_witness :
  write_ok (mk_ser_env 5 false None) = false /\ exiting init_acq_state = false /\
  recording init_acq_state = false /\
  let st1 := toggle_recording (mk_ser_env 5 false None) init_acq_state in
  recording st1 = true /\ ser_written st1 = ser_written init_acq_state /\
  ctl_status st1 = ctl_status init_acq_state ++
    (if Nat.ltb 0 (bytes_before (mk_ser_env 5 false None))
     then [ClearedBytes (bytes_before (mk_ser_env 5 false None))] else []) /\
  inf_control_queue (toggle_recording (mk_ser_env 0 true None) st1) =
    inf_control_queue init_acq_state ++ ["STOP_SESSION"].
Proof.
  assert (H1 : write_ok (mk_ser_env 5 false None) = false) by reflexivity.
  assert (H2 : exiting init_acq_state = false) by reflexivity.
  assert (H3 : recording init_acq_state = false) by reflexivity.
  split; [exact H1|]. split; [exact H2|]. split; [exact H3|].
  exact (X10_failed_start _ (mk_ser_env 0 true None) _ H1 H2 H3).
Defined.

(** X11: [_unpack_packet] fails exactly on packets whose length is not a
    multiple of 6; otherwise it returns one sample per 6 bytes, with a
    timestamp below 2^32 and a value below 2^16, both non-negative. *)
Theorem X11_unpack_packet_shape (p : list Byte.byte) :
  match unpack_packet p with
  | Some l => length p = 6 * length l /\ Forall sample_in_range l
  | None => length p mod 6 <> 0
  end.
Proof. apply unpack_packet_spec. Qed.

(** X12: a packet whose length is not a multiple of 6 leaves the windower's
    state unchanged and emits no window. *)
Theorem X12_malformed_packet_ignored (st : seg_state) (p : list Byte.byte) :
  length p mod 6 <> 0 -> on_packet st p = (st, []).
Proof. apply on_packet_malformed. Qed.

Lemma X12_malformed_packet_ignored_witness :
  length [Byte.x00; Byte.x01] mod 6 <> 0 /\
  on_packet init_seg_state [Byte.x00; Byte.x01] = (init_seg_state, []).
Proof.
  assert (H : length [Byte.x00; Byte.x01] mod 6 <> 0) by (cbn; lia).
  split; [exact H|]. exact (X12_malformed_packet_ignored _ _ H).
Defined.

(** X14: fed packets of at most 1024 samples each, the windower's buffer
    never reaches 1280 samples. *)
Theorem X14_buffer_bounded (ps : list (list Byte.byte)) :
  Forall (fun p => length p <= 6 * SEGMENT_SIZE) ps ->
  length (segment_buffer (fst (run_packets init_seg_state ps))) < SEGMENT_SIZE + OVERLAP_SIZE.
Proof. apply run_packets_bounded. Qed.

Lemma X14_buffer_bounded_witness :
  Forall (fun p => length p <= 6 * SEGMENT_SIZE) (ramp_packets 6) /\
  length (segment_buffer (fst (run_packets init_seg_state (ramp_packets 6)))) < SEGMENT_SIZE + OVERLAP_SIZE.
Proof.
  assert (H : Forall (fun p => length p <= 6 * SEGMENT_SIZE) (ramp_packets 6)).
  { apply List.Forall_forall. intros p Hp. unfold ramp_packets in Hp.
    apply in_map_iff in Hp as (j & <- & Hj). apply Nat.leb_le.
    apply in_seq in Hj. destruct j as [|[|[|[|[|[|j]]]]]]; try lia; vm_compute; reflexivity. }
  split; [exact H|]. exact (X14_buffer_bounded _ H).
Defined.

(** X15: for valid packets, the core timestamps of the emitted windows,
    concatenated, are exactly the decoded stream's timestamps up to the
    last emitted core: no sample is lost or repeated between cores. *)
Theorem X15_cores_partition (ps : list (list Byte.byte)) :
  Forall (fun p => length p = PACKET_DATA_SIZE) ps ->
  let out := snd (run_packets init_seg_state ps) in
  concat (map timestamp_ms out) = map fst (take (SEGMENT_SIZE * length out) (samples_of ps)).
Proof. apply emitted_cores. Qed.

Lemma X15_cores_partition_witness :
  Forall (fun p => length p = PACKET_DATA_SIZE) (ramp_packets 9) /\
  let out := snd (run_packets init_seg_state (ramp_packets 9)) in
  length out = 2 /\
  concat (map timestamp_ms out) = map fst (take (SEGMENT_SIZE * length out) (samples_of (ramp_packets 9))).
Proof.
  assert (H : Forall (fun p => length p = PACKET_DATA_SIZE) (ramp_packets 9))
    by (vm_compute; repeat constructor).
  split; [exact H|]. cbv zeta. split; [vm_compute; reflexivity|].
  exact (X15_cores_partition _ H).
Defined.

(** X16: a NaN anywhere in the input of [normalize_segment] makes every
    output value NaN (without raising). *)
Theorem X16_normalize_nan (xs : list float) :
  (exists x, In x xs /\ PrimFloat.is_nan x = true) ->
  exists ys, Filtering.normalize_segment xs = Some ys /\ length ys = length xs /\
             Forall (fun y => PrimFloat.is_nan y = true) ys.
Proof. apply normalize_nan. Qed.

Lemma X16_normalize_nan_witness :
  (exists x, In x [1%float; nan; 2%float] /\ PrimFloat.is_nan x = true) /\
  exists ys, Filtering.normalize_segment [1%float; nan; 2%float] = Some ys /\ length ys = 3 /\
             Forall (fun y => PrimFloat.is_nan y = true) ys.
Proof.
  assert (H : exists x, In x [1%float; nan; 2%float] /\ PrimFloat.is_nan x = true).
  { exists nan. split; [right; left; reflexivity | vm_compute; reflexivity]. }
  split; [exact H|]. exact (X16_normalize_nan _ H).
Defined.

(** X17: from its initial state, [inference_loop] keeps its session
    bookkeeping consistent: while a session is active its three writers
    are that session's files and its rhythm file holds the header and
    exactly one row per inference; otherwise all writers are closed and the
    counters are zero. *)
Theorem X17_inference_session_consistent (interp : option Inference.interpreter)
    (turns : list (option string * option Filtering.processed * string)) :
  session_inv (inference_run interp turns Inference.init_inf_state).
Proof. apply inference_run_inv, init_session_inv. Qed.

(** X18: when [filtfilt] preserves lengths, every window the windower emits
    for valid packets, once processed, has 1024 timestamps, 1024 raw,
    1024 filtered and 1024 normalized values, so its [reshape(1, 1024, 1)]
    in [run_inference] succeeds. *)
Theorem X18_processed_lengths (lib : Filtering.scipy_signal) (ps : list (list Byte.byte))
    (seg : segment) :
  Forall (fun p => length p = PACKET_DATA_SIZE) ps ->
  In seg (snd (run_packets init_seg_state ps)) ->
  (forall b a x y, Filtering.filtfilt lib b a x = Some y -> length y = length x) ->
  match Filtering.process_segment lib seg with
  | Some p =>
      length (Filtering.p_timestamp_ms p) = SEGMENT_SIZE /\
      length (Filtering.raw_signal p) = SEGMENT_SIZE /\
      length (Filtering.filtered_signal p) = SEGMENT_SIZE /\
      Inference.reshape_1_1024_1 (Filtering.processed_signal p) = Some (Filtering.processed_signal p)
  | None => True
  end.
Proof. apply window_processed_lengths. Qed.

Lemma X18_processed_lengths_witness :
  exists seg,
    Forall (fun p => length p = PACKET_DATA_SIZE) (ramp_packets 5) /\
    In seg (snd (run_packets init_seg_state (ramp_packets 5))) /\
    (forall b a x y, Filtering.filtfilt id_lib b a x = Some y -> length y = length x) /\
    match Filtering.process_segment id_lib seg with
    | Some p =>
        length (Filtering.p_timestamp_ms p) = SEGMENT_SIZE /\
        length (Filtering.raw_signal p) = SEGMENT_SIZE /\
        length (Filtering.filtered_signal p) = SEGMENT_SIZE /\
        Inference.reshape_1_1024_1 (Filtering.processed_signal p) = Some (Filtering.processed_signal p)
    | None => True
    end.
Proof.
  assert (Hv : Forall (fun p => length p = PACKET_DATA_SIZE) (ramp_packets 5))
    by (vm_compute; repeat constructor).
  destruct (nth_error (snd (run_packets init_seg_state (ramp_packets 5))) 0) as [seg|] eqn:Hs;
    [|vm_compute in Hs; discriminate].
  assert (Hin : In seg (snd (run_packets init_seg_state (ramp_packets 5))))
    by (eapply nth_error_In; exact Hs).
  assert (Hf : forall b a x y, Filtering.filtfilt id_lib b a x = Some y -> length y = length x)
    by (intros b a x y E; cbn in E; congruence).
  exists seg. split; [exact Hv|]. split; [exact Hin|]. split; [exact Hf|].
  exact (X18_processed_lengths id_lib _ seg Hv Hin Hf).
Defined.

(** X20: a recording session started while idle with its 1536-byte
    buffer puts on stdout, for each of its marker-prefixed frames in turn,
    the whole frame when its writes succeed and only the bytes sent before
    the failure when one of them raises; a failed flush loses the rest of
    its frame and no later one. *)
Theorem X20_pico_failed_writes (now : Z) (rs : list (Z * Z)) (st : Pico.pico) :
  Pico.is_recording st = false -> length (Pico.adc_buffer st) = Pico.BUFFER_SIZE * 6 ->
  Pico.stdout (Pico.session now rs st) =
    Pico.stdout st ++ PicoModel.deliver (Pico.usb st) (PicoModel.frame_list (map PicoModel.packed rs)).
Proof. apply session_stream_deliver. Qed.

Lemma X20_pico_failed_writes_witness :
  let st := Pico.mk_pico false 0 (repeat Byte.x00 (Pico.BUFFER_SIZE * 6)) 0 0 []
              [Pico.WriteFails 0] in
  let rs := map (fun k => (Z.of_nat k, Z.of_nat k)) (seq 0 300) in
  Pico.is_recording st = false /\ length (Pico.adc_buffer st) = Pico.BUFFER_SIZE * 6 /\
  Pico.stdout (Pico.session 0 rs st) =
    Pico.stdout st ++ PicoModel.deliver (Pico.usb st) (PicoModel.frame_list (map PicoModel.packed rs)) /\
  Pico.stdout (Pico.session 0 rs st) = PicoModel.frames (map PicoModel.packed (drop 256 rs)).
Proof.
  cbv zeta.
  set (st := Pico.mk_pico false 0 (repeat Byte.x00 (Pico.BUFFER_SIZE * 6)) 0 0 []
               [Pico.WriteFails 0]).
  set (rs := map (fun k => (Z.of_nat k, Z.of_nat k)) (seq 0 300)).
  assert (H1 : Pico.is_recording st = false) by reflexivity.
  assert (H2 : length (Pico.adc_buffer st) = Pico.BUFFER_SIZE * 6) by reflexivity.
  pose proof (X20_pico_failed_writes 0 rs st H1 H2) as E.
  split; [exact H1|]. split; [exact H2|]. split; [exact E|].
  rewrite E. vm_compute. reflexivity.
Defined.

(** X21: [filtering_loop] forwards, in order, the result of every
    window whose processing returns, reports one error for each window whose
    processing raises (dropping it), and counts the forwarded windows. *)
Theorem X21_filtering_loop_forwards (lib : Filtering.scipy_signal) (segs : list segment) :
  let st := Filtering.filtering_loop lib segs in
  Filtering.inference_queue st = omap (Filtering.process_segment lib) segs /\
  length (List.filter (fun m => match m with Filtering.FiltError => true | _ => false end)
            (Filtering.status_queue st))
    = length (List.filter (fun s => match Filtering.process_segment lib s with
                                    | None => true | Some _ => false end) segs) /\
  Filtering.processed_count st = length (omap (Filtering.process_segment lib) segs).
Proof.
  destruct (FilteringFacts.filtering_fold lib segs (Filtering.mk_filt_state [] [] 0)) as (Hq & He & Hc).
  cbn [Filtering.inference_queue Filtering.status_queue Filtering.processed_count app] in Hq, He, Hc.
  cbn. unfold Filtering.filtering_loop. split; [exact Hq|]. split; [exact He|exact Hc].
Qed.

End Extras.
